(** * Decision modules of a routing network and the SARSA loss rule

    A shallow embedding of
    - [PytorchRouting/DecisionLayers/Decision.py] (class [Decision]) and
    - [PytorchRouting/DecisionLayers/ReinforcementLearning/SARSA.py]
      (class [SARSA]),
    together with the part of the tensor library the two files call.

    Python exceptions are values of [exn]; a computation that may raise
    is a [Result]; a method that also mutates objects is a state
    transformer [Eff] over the object store, in which the store reached
    when an exception is raised is kept (Python does not roll back).

    A tensor is its size and its elements in row-major order, with a
    flag for its membership in the computation graph; the type of the
    floating-point elements is a parameter [R] with its arithmetic
    ([FloatOps]), integer tensors hold [Z].  Containers and reward
    functions live in a store and are passed by reference, so that two
    holders of one object see each other's writes. *)

From Stdlib Require Import ZArith QArith Qabs Lia Ascii String.
From stdpp Require Import base option list gmap strings.

Open Scope string_scope.
Open Scope list_scope.
Open Scope Z_scope.
Open Scope nat_scope.

(* ================================================================== *)
(** * Python: exceptions and effects *)
(* ================================================================== *)

Module Py.

Inductive exn : Type :=
| ValueError (msg : string)
| TypeError (msg : string)
| IndexError (msg : string)
| AttributeError (msg : string)
| RuntimeError (msg : string).

Inductive Result (A : Type) : Type :=
| Ok (a : A)
| Raise (e : exn).
Arguments Ok {A} a.
Arguments Raise {A} e.

#[export] Instance Result_ret : MRet Result := fun _ a => Ok a.
#[export] Instance Result_bind : MBind Result := fun _ _ k r =>
  match r with
  | Ok a => k a
  | Raise e => Raise e
  end.

Definition is_ok {A} (r : Result A) : Prop :=
  match r with Ok _ => True | Raise _ => False end.

(** A method with effects on a store [S]. *)
Definition Eff (S A : Type) : Type := S → Result A * S.

#[export] Instance Eff_ret {S} : MRet (Eff S) := fun _ a s => (Ok a, s).
#[export] Instance Eff_bind {S} : MBind (Eff S) := fun _ _ k m s =>
  match m s with
  | (Ok a, s') => k a s'
  | (Raise e, s') => (Raise e, s')
  end.

(** [raise e]: the store is left as it is. *)
Definition raise {S A} (e : exn) : Eff S A := fun s => (Raise e, s).

(** A computation without effects, run inside a method. *)
Definition pure {S A} (r : Result A) : Eff S A := fun s => (r, s).

(** A statement that only updates the store. *)
Definition modify {S} (f : S → S) : Eff S unit := fun s => (Ok tt, f s).

(** [zip(a, b, c)]: stops with the shortest argument. *)
Fixpoint zip3 {A B C} (la : list A) (lb : list B) (lc : list C)
  : list (A * B * C) :=
  match la, lb, lc with
  | a :: la', b :: lb', c :: lc' => (a, b, c) :: zip3 la' lb' lc'
  | _, _, _ => []
  end.

(** [for x in l: acc = body(acc, x)]: a loop and the variables it
    updates. *)
Fixpoint for_ {S A B} (l : list A) (acc : B) (body : B → A → Eff S B)
  : Eff S B :=
  match l with
  | [] => mret acc
  | x :: l' => acc' ← body acc x; for_ l' acc' body
  end.

End Py.
Import Py.

(* ================================================================== *)
(** * torch: contiguous tensors *)
(* ================================================================== *)

Module torch.

(** A tensor is its size, its elements in row-major order, and whether
    it is attached to the computation graph of automatic
    differentiation. *)
Record Tensor (A : Type) : Type := mkTensor {
  size : list nat;
  storage : list A;
  requires_grad : bool
}.
Arguments mkTensor {A} size storage requires_grad.
Arguments size {A} t.
Arguments storage {A} t.
Arguments requires_grad {A} t.

Definition prod_list (l : list nat) : nat := foldr Nat.mul 1 l.

Definition sum_list (l : list nat) : nat := foldr Nat.add 0 l.

Definition dim {A} (t : Tensor A) : nat := length (size t).
Definition numel {A} (t : Tensor A) : nat := prod_list (size t).

(** [len(t)]: the size of the first dimension. *)
Definition batch_size {A} (t : Tensor A) : nat := hd 0 (size t).

(** The storage holds exactly the elements the size announces. *)
Definition wf {A} (t : Tensor A) : Prop := length (storage t) = numel t.

(** The [i]-th block of [stride] consecutive elements. *)
Definition block {A} (stride i : nat) (l : list A) : list A :=
  take stride (drop (i * stride) l).

(** [t.detach()] and [t.data]: same elements, outside the graph. *)
Definition detach {A} (t : Tensor A) : Tensor A :=
  mkTensor (size t) (storage t) false.
Definition data {A} (t : Tensor A) : Tensor A :=
  mkTensor (size t) (storage t) false.

(** [t.unsqueeze(d)]: a dimension of size one inserted at [d];
    a negative [d] counts from the end, [-1] being after the last. *)
Definition unsqueeze {A} (d : Z) (t : Tensor A) : Result (Tensor A) :=
  let r := Z.of_nat (dim t) in
  let d' := if (d <? 0)%Z then (d + r + 1)%Z else d in
  if ((0 <=? d') && (d' <=? r))%Z
  then Ok (mkTensor (take (Z.to_nat d') (size t) ++ 1 :: drop (Z.to_nat d') (size t))
                    (storage t) (requires_grad t))
  else Raise (IndexError "Dimension out of range").

(** [t.squeeze()]: every dimension of size one removed. *)
Definition squeeze {A} (t : Tensor A) : Tensor A :=
  mkTensor (filter (λ n, n ≠ 1) (size t)) (storage t) (requires_grad t).

(** [t.reshape(-1)]: one dimension holding all the elements. *)
Definition reshape_flat {A} (t : Tensor A) : Tensor A :=
  mkTensor [numel t] (storage t) (requires_grad t).

(** [t.split(1, dim=0)]: the rows of [t], each keeping a leading
    dimension of size one.  A tensor with no row gives one (empty)
    chunk; a zero-dimensional tensor cannot be split. *)
Definition split1 {A} (t : Tensor A) : Result (list (Tensor A)) :=
  match size t with
  | [] => Raise (RuntimeError "split expects at least a 1-dimensional tensor")
  | 0 :: rest => Ok [t]
  | n :: rest =>
      Ok (map (λ i, mkTensor (1 :: rest) (block (prod_list rest) i (storage t))
                             (requires_grad t))
              (seq 0 n))
  end.

(** [iter(t)], as used by [for a in t] and [zip(t, ...)]: the
    sub-tensors along the first dimension, that dimension dropped. *)
Definition iter {A} (t : Tensor A) : Result (list (Tensor A)) :=
  match size t with
  | [] => Raise (TypeError "iteration over a 0-d tensor")
  | n :: rest =>
      Ok (map (λ i, mkTensor rest (block (prod_list rest) i (storage t))
                             (requires_grad t))
              (seq 0 n))
  end.

(** [torch.cat(ts, dim=0)].  One-dimensional empty tensors are skipped
    (the library's legacy rule); the others must have at least one
    dimension and agree on all dimensions but the first. *)
Definition is_legacy_empty {A} (t : Tensor A) : bool :=
  bool_decide (size t = [0]).

Fixpoint cat_from {A} (rest : list nat) (rows : nat) (acc : list A) (rg : bool)
    (ts : list (Tensor A)) : Result (Tensor A) :=
  match ts with
  | [] => Ok (mkTensor (rows :: rest) acc rg)
  | t :: ts' =>
      match size t with
      | [] => Raise (RuntimeError "zero-dimensional tensor cannot be concatenated")
      | n :: rest' =>
          if bool_decide (rest' = rest)
          then cat_from rest (rows + n) (acc ++ storage t) rg ts'
          else Raise (RuntimeError "Sizes of tensors must match except in dimension 0")
      end
  end.

Definition cat {A} (ts : list (Tensor A)) : Result (Tensor A) :=
  match ts with
  | [] => Raise (RuntimeError "torch.cat(): expected a non-empty list of Tensors")
  | _ =>
      match filter (λ t, is_legacy_empty t = false) ts with
      | [] => Ok (mkTensor [0] [] (existsb requires_grad ts))
      | t :: kept =>
          match size t with
          | [] => Raise (RuntimeError "zero-dimensional tensor cannot be concatenated")
          | n :: rest =>
              cat_from rest n (storage t)
                       (existsb requires_grad ts) kept
          end
      end
  end.

(** [t[:, k]]: along the second dimension, the entry [k]; a negative
    [k] counts from the end. *)
Definition select1 {A} (t : Tensor A) (k : Z) : Result (Tensor A) :=
  match size t with
  | d0 :: d1 :: rest =>
      let k' := if (k <? 0)%Z then (k + Z.of_nat d1)%Z else k in
      if ((0 <=? k') && (k' <? Z.of_nat d1))%Z
      then
        let stride := prod_list rest in
        Ok (mkTensor (d0 :: rest)
              (flat_map (λ i, block stride (i * d1 + Z.to_nat k') (storage t))
                        (seq 0 d0))
              (requires_grad t))
      else Raise (IndexError "index is out of bounds for dimension 1")
  | _ => Raise (IndexError "too many indices for tensor")
  end.

(** Broadcasting: sizes are aligned at their last dimension; two
    aligned dimensions must be equal or one of them must be one. *)
Fixpoint broadcast_rev (s1 s2 : list nat) : option (list nat) :=
  match s1, s2 with
  | [], s | s, [] => Some s
  | a :: s1', b :: s2' =>
      if bool_decide (a = b) then cons a <$> broadcast_rev s1' s2'
      else if bool_decide (a = 1) then cons b <$> broadcast_rev s1' s2'
      else if bool_decide (b = 1) then cons a <$> broadcast_rev s1' s2'
      else None
  end.

Definition broadcast_sizes (s1 s2 : list nat) : option (list nat) :=
  reverse <$> broadcast_rev (reverse s1) (reverse s2).

(** The elements of a tensor of size [from] seen at size [to];
    both sizes have the same length. *)
Fixpoint expand_storage {A} (from to : list nat) (l : list A) : list A :=
  match from, to with
  | f :: from', t :: to' =>
      if bool_decide (f = t)
      then flat_map (λ i, expand_storage from' to' (block (prod_list from') i l))
                    (seq 0 f)
      else mjoin (replicate t (expand_storage from' to' l))
  | _, _ => l
  end.

Definition expand_to {A} (to : list nat) (t : Tensor A) : list A :=
  expand_storage (replicate (length to - dim t) 1 ++ size t) to (storage t).

(** An element-wise binary operation with broadcasting. *)
Definition pointwise {A B C} (op : A → B → C) (a : Tensor A) (b : Tensor B)
  : Result (Tensor C) :=
  match broadcast_sizes (size a) (size b) with
  | Some s =>
      Ok (mkTensor s (zip_with op (expand_to s a) (expand_to s b))
                   (requires_grad a || requires_grad b))
  | None => Raise (RuntimeError "The size of tensor a must match the size of tensor b")
  end.

(** ** torch.nn.functional: regression losses, reduced to their mean *)

Class FloatOps (R : Type) : Type := {
  fzero : R;
  fhalf : R;
  fone : R;
  fadd : R → R → R;
  fsub : R → R → R;
  fmul : R → R → R;
  fdiv : R → R → R;
  fabs : R → R;
  fltb : R → R → bool;
  fof_nat : nat → R
}.

Section functional.
Context {R : Type} `{FloatOps R}.

(** [a - b] *)
Definition sub (a b : Tensor R) : Result (Tensor R) := pointwise fsub a b.

Definition mean (l : list R) : R :=
  fdiv (foldl fadd fzero l) (fof_nat (length l)).

Definition huber (x y : R) : R :=
  let d := fabs (fsub x y) in
  if fltb d fone then fmul fhalf (fmul d d) else fsub d fhalf.

Definition squared (x y : R) : R :=
  let d := fsub x y in fmul d d.

(** [F.smooth_l1_loss(input, target)] *)
Definition smooth_l1_loss (input target : Tensor R) : Result (Tensor R) :=
  z ← pointwise huber input target;
  mret (mkTensor [] [mean (storage z)] (requires_grad z)).

(** [F.mse_loss(input, target)] *)
Definition mse_loss (input target : Tensor R) : Result (Tensor R) :=
  z ← pointwise squared input target;
  mret (mkTensor [] [mean (storage z)] (requires_grad z)).
End functional.

End torch.
Import torch.

(* ================================================================== *)
(** * Objects shared between the modules and their callers *)
(* ================================================================== *)

(** Objects are held by reference. *)
Abbreviation ref := nat (only parsing).

(** One step of a trajectory, as the loss rules read it: the attributes
    [SARSA._loss] accesses.  [next_state] and [next_action] are [None]
    on a terminal step. *)
Record Sample (R : Type) : Type := mkSample {
  state : Tensor R;
  action : Z;
  reward : Tensor R;
  next_state : option (Tensor R);
  next_action : option Z;
  cum_return : Tensor R
}.
Arguments mkSample {R}.
Arguments state {R} s.
Arguments action {R} s.
Arguments reward {R} s.
Arguments next_state {R} s.
Arguments next_action {R} s.
Arguments cum_return {R} s.

(** What a decision module puts into a container: a tensor of actions
    (integers), a tensor of values, a loss function, a reward-function
    object. *)
Inductive Value (R : Type) : Type :=
| VLong (a : Tensor Z)
| VFloat (d : Tensor R)
| VFunc (f : Sample R → Result (Tensor R))
| VRef (r : ref).
Arguments VLong {R} a.
Arguments VFloat {R} d.
Arguments VFunc {R} f.
Arguments VRef {R} r.

(** Modelled from the spec: the trajectory metadata container, whose
    class is not among the sources.  It holds, keyed by name, ordered
    sequences that only grow, one entry per decision step;
    [append(key, value)] adds [value] at the end of the sequence [key],
    which is empty until its first entry. *)
Module MetaInformation.
Definition field {R} (key : string) (mx : gmap string (list (Value R)))
  : list (Value R) := default [] (mx !! key).

Definition append {R} (key : string) (v : Value R)
    (mx : gmap string (list (Value R))) : gmap string (list (Value R)) :=
  <[key := field key mx ++ [v]]> mx.
End MetaInformation.

(** Modelled from the spec: the per-action reward function, whose class
    is not among the sources.  It keeps the (distribution, action) pairs
    registered with it, in order; [register(dist, action)] records one
    pair; a new object has none. *)
Module PerActionBaseReward.
Definition __init__ {R} : list (Tensor R * Tensor Z) := [].

Definition register {R} (dist : Tensor R) (action : Tensor Z)
    (self : list (Tensor R * Tensor Z)) : list (Tensor R * Tensor Z) :=
  self ++ [(dist, action)].
End PerActionBaseReward.

(** The objects a call can reach: the containers and the reward
    functions, by reference, and [world], everything a subclass's
    [_forward] may read or update (policy parameters, the random
    generator). *)
Record Store (R W : Type) : Type := mkStore {
  metas : gmap ref (gmap string (list (Value R)));
  rewards : gmap ref (list (Tensor R * Tensor Z));
  world : W
}.
Arguments mkStore {R W}.
Arguments metas {R W} s.
Arguments rewards {R W} s.
Arguments world {R W} s.

(* ================================================================== *)
(** * Decision.py *)
(* ================================================================== *)

Module DecisionLayer.

(** An instance of [Decision]: the attributes [__init__] sets.  The
    policy storages ([_policy] and the arguments they are built from)
    are of classes outside these sources and only [_forward] reads
    them; they are part of [world]. *)
Record DecisionModule (R : Type) : Type := mkDecision {
  _in_features : Z;
  _num_selections : Z;
  _num_agents : Z;
  _exploration : R;
  _detach : bool;
  additional_reward_func : ref;
  bellman_loss_func : Tensor R → Tensor R → Result (Tensor R)
}.
Arguments mkDecision {R}.
Arguments _in_features {R} d.
Arguments _num_selections {R} d.
Arguments _num_agents {R} d.
Arguments _exploration {R} d.
Arguments _detach {R} d.
Arguments additional_reward_func {R} d.
Arguments bellman_loss_func {R} d.

(** The two abstract methods a subclass provides.  [_forward] returns
    [(ys, action, generating_dist)]; it is given the containers, which
    it does not write to: it acts on [world] alone.  [_loss] is declared
    static in [Decision]; a subclass that defines it as a method of the
    instance, as [SARSA] does, reads [self], the first argument here. *)
Class DecisionMethods (R W : Type) : Type := {
  _forward : DecisionModule R → Tensor R → list ref → Z → W
             → Result (Tensor R * Tensor Z * Tensor R) * W;
  _loss : DecisionModule R → Sample R → Result (Tensor R)
}.

Section Decision.
Context {R W : Type} `{DecisionMethods R W}.

(** The [class Decision] statement: the default values of
    [__init__] are evaluated here, once; [PerActionBaseReward()]
    creates one object, and the class keeps the reference to it. *)
Definition class_Decision : Eff (Store R W) ref := λ s,
  let r := fresh (dom (rewards s)) in
  (Ok r, mkStore (metas s)
                 (<[r := PerActionBaseReward.__init__]> (rewards s))
                 (world s)).

(** [Decision.__init__]; [default] is the object the class statement
    created.  [additional_reward_func] and [bellman_loss_func], when
    left out, are [None] here; the other arguments are given.  The
    arguments that only shape the policy storages are left to
    [world]. *)
Definition __init__ (default : ref)
    (num_selections in_features num_agents : Z) (exploration : R)
    (detach : bool) (additional_reward_func : option ref)
    (bellman_loss_func : option (Tensor R → Tensor R → Result (Tensor R)))
    `{FloatOps R} : DecisionModule R :=
  {| _in_features := in_features;
     _num_selections := num_selections;
     _num_agents := num_agents;
     _exploration := exploration;
     _detach := detach;
     additional_reward_func :=
       match additional_reward_func with Some r => r | None => default end;
     bellman_loss_func :=
       match bellman_loss_func with Some f => f | None => smooth_l1_loss end |}.

Definition set_exploration (self : DecisionModule R) (exploration : R)
  : DecisionModule R :=
  {| _in_features := _in_features self;
     _num_selections := _num_selections self;
     _num_agents := _num_agents self;
     _exploration := exploration;
     _detach := _detach self;
     additional_reward_func := additional_reward_func self;
     bellman_loss_func := bellman_loss_func self |}.

(** [self._forward(x, mxs, pa)] *)
Definition call_forward (self : DecisionModule R) (xs : Tensor R)
    (mxs : list ref) (prior_action : Z)
  : Eff (Store R W) (Tensor R * Tensor Z * Tensor R) := λ s,
  let '(r, w) := _forward self xs mxs prior_action (world s) in
  (r, mkStore (metas s) (rewards s) w).

(** [mx.append(key, v)] *)
Definition mx_append (mx : ref) (key : string) (v : Value R)
  : Eff (Store R W) unit :=
  modify (λ s, mkStore
    (<[mx := MetaInformation.append key v (default ∅ (metas s !! mx))]> (metas s))
    (rewards s) (world s)).

(** [rf.register(d, a)] *)
Definition rf_register (rf : ref) (d : Tensor R) (a : Tensor Z)
  : Eff (Store R W) unit :=
  modify (λ s, mkStore (metas s)
    (<[rf := PerActionBaseReward.register d a (default [] (rewards s !! rf))]>
       (rewards s))
    (world s)).

Definition prior_actions_msg : string :=
  ("If multiple agents are available, argument "
   ++ "`prior_actions` must be provided as a long Tensor of size "
   ++ "(batch_size)," ++ String "010"%char "where each entry determines the agent for "
   ++ "that sample.")%string.

(** Lines 102-105: a generating distribution of fewer than three
    dimensions gets one more, of size one, at the end. *)
Definition normalize_dist (generating_dist : Tensor R) : Result (Tensor R) :=
  if (dim generating_dist <? 3)%nat
  then unsqueeze (-1) generating_dist
  else Ok generating_dist.

(** Lines 100-108: the body of the loop over the rows. *)
Definition agent_step (self : DecisionModule R)
    (acc : list (Tensor Z) * list (Tensor R) * list (Tensor R))
    (row : Tensor R * ref * Z)
  : Eff (Store R W) (list (Tensor Z) * list (Tensor R) * list (Tensor R)) :=
  let '(actions, dists, ys) := acc in
  let '(x, mx, pa) := row in
  '(y, action, generating_dist) ← call_forward self x [mx] pa;
  generating_dist ← pure (normalize_dist generating_dist);
  mret (actions ++ [action], dists ++ [generating_dist], ys ++ [y]).

(** Lines 117-125: the body of the loop that records the step. *)
Definition record_step (self : DecisionModule R) (_ : unit)
    (step : Tensor Z * Tensor R * ref) : Eff (Store R W) unit :=
  let '(a, d, mx) := step in
  _ ← mx_append mx "actions" (VLong a);
  _ ← mx_append mx "states" (VFloat d);
  _ ← mx_append mx "loss_funcs" (VFunc (_loss self));
  _ ← mx_append mx "reward_func" (VRef (additional_reward_func self));
  rf_register (additional_reward_func self) d a.

Definition forward (self : DecisionModule R) (xs : Tensor R)
    (mxs : list ref) (prior_actions : option (list Z))
  : Eff (Store R W) (Tensor R * list ref * Tensor Z) :=
  '(ys, actions, dists) ←
    (if (1 <? _num_agents self)%Z
     then
       match prior_actions with
       | None => raise (ValueError prior_actions_msg)
       | Some prior_actions =>
           rows ← pure (split1 xs);
           '(actions, dists, ys) ←
             for_ (zip3 rows mxs prior_actions) ([], [], []) (agent_step self);
           actions ← pure (cat actions);
           dists ← pure (cat dists);
           ys ← pure (cat ys);
           mret (ys, actions, dists)
       end
     else call_forward self xs mxs 0);
  let actions := reshape_flat actions in
  ds ← pure (split1 dists);
  as_ ← pure (iter actions);
  _ ← for_ (zip3 as_ ds mxs) tt (record_step self);
  mret (ys, mxs, actions).

End Decision.

End DecisionLayer.
Import DecisionLayer.

(* ================================================================== *)
(** * ReinforcementLearning/SARSA.py *)
(* ================================================================== *)

Module SARSA.
Section SARSA.
Context {R : Type} `{FloatOps R}.

(** Lines 17-20: the target, by the kind of step. *)
Definition target (sample : Sample R) : Result (Tensor R) :=
  match next_action sample with
  | Some na =>
      match next_state sample with
      | Some ns => col ← select1 (data ns) na; sub col (reward sample)
      | None => Raise (AttributeError "'NoneType' object has no attribute 'data'")
      end
  | None => Ok (cum_return sample)
  end.

Definition _loss (self : DecisionModule R) (sample : Sample R)
  : Result (Tensor R) :=
  target ← target sample;
  let target := detach target in
  q ← select1 (state sample) (action sample);
  l ← bellman_loss_func self (squeeze q) (squeeze target);
  unsqueeze 0 l.

(** [SARSA] takes [_forward] from [QLearning], whose source is not
    at hand: it is a parameter here. *)
Definition methods {W} (QLearning_forward :
    DecisionModule R → Tensor R → list ref → Z → W
    → Result (Tensor R * Tensor Z * Tensor R) * W) : DecisionMethods R W :=
  {| _forward := QLearning_forward; DecisionLayer._loss := _loss |}.
End SARSA.
End SARSA.

(* ================================================================== *)
(** * Observing the store *)
(* ================================================================== *)

Section observations.
Context {R W : Type} `{DecisionMethods R W}.
Implicit Types (s : Store R W) (self : DecisionModule R) (mx rf : ref).

(** What a reference stands for in a store. *)
Definition meta_at s mx : gmap string (list (Value R)) :=
  default ∅ (metas s !! mx).
Definition field_at s mx (key : string) : list (Value R) :=
  MetaInformation.field key (meta_at s mx).
Definition reward_at s rf : list (Tensor R * Tensor Z) :=
  default [] (rewards s !! rf).

(** The four sequences a decision step extends have one entry per
    step. *)
Definition aligned s mx : Prop :=
  length (field_at s mx "actions") = length (field_at s mx "states") ∧
  length (field_at s mx "states") = length (field_at s mx "loss_funcs") ∧
  length (field_at s mx "loss_funcs") = length (field_at s mx "reward_func").

(** The store after [mx.append(key, v)]. *)
Definition appended mx (key : string) (v : Value R) s : Store R W :=
  mkStore (<[mx := MetaInformation.append key v (meta_at s mx)]> (metas s))
          (rewards s) (world s).

(** The store after [rf.register(d, a)]. *)
Definition registered rf (d : Tensor R) (a : Tensor Z) s : Store R W :=
  mkStore (metas s)
          (<[rf := PerActionBaseReward.register d a (reward_at s rf)]> (rewards s))
          (world s).

(** The entries one recorded step adds under [key]. *)
Definition step_entries self (step : Tensor Z * Tensor R * ref) (key : string)
  : list (Value R) :=
  (if decide (key = "actions") then [VLong step.1.1] else [])
  ++ (if decide (key = "states") then [VFloat step.1.2] else [])
  ++ (if decide (key = "loss_funcs") then [VFunc (_loss self)] else [])
  ++ (if decide (key = "reward_func")
      then [VRef (additional_reward_func self)] else []).

(** The store after one turn of the recording loop. *)
Definition recorded self (step : Tensor Z * Tensor R * ref) s : Store R W :=
  let '(a, d, mx) := step in
  registered (additional_reward_func self) d a
    (appended mx "reward_func" (VRef (additional_reward_func self))
      (appended mx "loss_funcs" (VFunc (_loss self))
        (appended mx "states" (VFloat d)
          (appended mx "actions" (VLong a) s)))).

(** What [forward] expects of a subclass's [_forward]: one action and
    one row of the generating distribution for every row of its
    input. *)
Definition forward_contract : Prop :=
  ∀ self (x : Tensor R) mxs pa w y (a : Tensor Z) (d : Tensor R) w',
    _forward self x mxs pa w = (Ok (y, a, d), w') →
    numel a = batch_size x ∧ 1 ≤ dim d ∧ batch_size d = batch_size x.

(** How many rows a call goes through, on a batch that has as many rows
    as containers: all of them with one agent; with several agents, as
    many as [zip] finds prior actions for. *)
Definition rows_reached self (mxs : list ref) (pas : option (list Z)) : nat :=
  if (1 <? _num_agents self)%Z
  then match pas with
       | Some l => length l `min` length mxs
       | None => 0
       end
  else length mxs.

End observations.

(* ================================================================== *)
(** * Concrete instances, for evaluation *)
(* ================================================================== *)

Module Examples.

(** Exact arithmetic on rationals, kept in lowest terms.  The values
    computed below are small multiples of 1/2, which floating point
    computes exactly as well. *)
#[export] Instance Q_ops : FloatOps Q := {|
  fzero := 0%Q;
  fhalf := (1 # 2)%Q;
  fone := 1%Q;
  fadd x y := Qred (x + y)%Q;
  fsub x y := Qred (x - y)%Q;
  fmul x y := Qred (x * y)%Q;
  fdiv x y := Qred (x / y)%Q;
  fabs x := Qred (Qabs x);
  fltb x y := if Qlt_le_dec x y then true else false;
  fof_nat n := inject_Z (Z.of_nat n)
|}.

(** A subclass with a value table per agent and a greedy choice: the
    generating distribution repeats the agent's table for every row
    of the batch, the action is the first index of its maximum. *)
Definition argmax (l : list Q) : Z :=
  match l with
  | [] => 0%Z
  | x :: l' =>
      fst (fst (foldl (λ '(best, i, m) y,
                         if fltb m y then (i, (i + 1)%Z, y) else (best, (i + 1)%Z, m))
                      (0%Z, 1%Z, x) l'))
  end.

Definition greedy_forward (self : DecisionModule Q) (xs : Tensor Q)
    (mxs : list ref) (agent : Z) (tables : list (list Q))
  : Result (Tensor Q * Tensor Z * Tensor Q) * list (list Q) :=
  match size xs, (if (agent <? 0)%Z then None else tables !! Z.to_nat agent) with
  | n :: _, Some table =>
      (Ok (xs,
           mkTensor [n] (replicate n (argmax table)) false,
           mkTensor [n; length table] (mjoin (replicate n table)) true),
       tables)
  | _, _ => (Raise (IndexError "index out of range"), tables)
  end.

#[export] Instance greedy_sarsa : DecisionMethods Q (list (list Q)) :=
  SARSA.methods greedy_forward.

Definition tables : list (list Q) := [[1; 3]%Q; [2; 0]%Q].

(** Two empty containers, at the references 0 and 1, before the class
    statement has run: no reward function yet. *)
Definition store0 : Store Q (list (list Q)) :=
  mkStore {[ 0 := ∅; 1 := ∅ ]} ∅ tables.

Definition xs2 : Tensor Q := mkTensor [2; 1] [5; 7]%Q false.

(** The store once the class statement has run, and the reference of
    the default reward function it created. *)
Definition store1 : Store Q (list (list Q)) := (class_Decision store0).2.
Definition default_rf : ref := 0.

(** Modules built without [additional_reward_func] and without
    [bellman_loss_func]: one agent, two agents. *)
Definition single : DecisionModule Q :=
  __init__ default_rf 2 1 1 (1 # 10)%Q true None None.
Definition multi : DecisionModule Q :=
  __init__ default_rf 2 1 2 (1 # 10)%Q true None None.

(** A module that differs from [single] in its [bellman_loss_func]. *)
Definition single_mse : DecisionModule Q :=
  __init__ default_rf 2 1 1 (1 # 10)%Q true None (Some mse_loss).

(** A module with a reward function of its own, at reference 1. *)
Definition store2 : Store Q (list (list Q)) :=
  mkStore (metas store1) (<[1 := PerActionBaseReward.__init__]> (rewards store1))
          (world store1).
Definition own_rf : DecisionModule Q :=
  __init__ default_rf 2 1 1 (1 # 10)%Q true (Some 1) None.

(** A step followed by another one, and a last step. *)
Definition step_sample : Sample Q :=
  mkSample (mkTensor [1; 2; 1] [1; 3]%Q true) 1
           (mkTensor [] [1]%Q false)
           (Some (mkTensor [1; 2; 1] [2; 7]%Q true)) (Some 1%Z)
           (mkTensor [1] [4]%Q false).
Definition last_sample : Sample Q :=
  mkSample (mkTensor [1; 2; 1] [1; 3]%Q true) 1
           (mkTensor [] [1]%Q false)
           None None
           (mkTensor [1] [4]%Q true).

End Examples.

(* ================================================================== *)
(** * Facts about the tensor operations *)
(* ================================================================== *)

Section tensor_facts.
Context {A : Type}.
Implicit Types t : Tensor A.

Lemma unsqueeze_last t :
  unsqueeze (-1) t = Ok (mkTensor (size t ++ [1]) (storage t) (requires_grad t)).
Proof.
  unfold unsqueeze, dim. cbn -[Z.add Z.of_nat].
  replace (-1 + Z.of_nat (length (size t)) + 1)%Z
    with (Z.of_nat (length (size t))) by lia.
  rewrite (proj2 (Z.leb_le _ _)) by lia.
  rewrite Z.leb_refl. cbn [andb].
  rewrite Nat2Z.id, firstn_all, drop_all. reflexivity.
Qed.

Lemma unsqueeze_first t :
  unsqueeze 0 t = Ok (mkTensor (1 :: size t) (storage t) (requires_grad t)).
Proof.
  unfold unsqueeze, dim. cbn -[Z.of_nat].
  rewrite (proj2 (Z.leb_le _ _)) by lia. reflexivity.
Qed.

Lemma dim_reshape_flat t : size (reshape_flat t) = [numel t].
Proof. reflexivity. Qed.

Lemma iter_reshape_flat t :
  ∃ l, iter (reshape_flat t) = Ok l ∧ length l = numel t ∧
       Forall (λ a, size a = []) l.
Proof.
  unfold iter, reshape_flat. cbn [size storage requires_grad].
  eexists. split; [reflexivity|]. split.
  - rewrite length_map, length_seq. reflexivity.
  - apply Forall_map, Forall_forall. reflexivity.
Qed.

Lemma split1_length t l :
  split1 t = Ok l →
  1 ≤ dim t ∧ length l = Nat.max 1 (batch_size t) ∧
  Forall (λ c, dim c = dim t) l.
Proof.
  unfold split1, batch_size, dim.
  destruct (size t) as [|n rest] eqn:E; [discriminate|].
  destruct n as [|n]; intros [= <-].
  - split; [cbn; lia|]. split; [reflexivity|].
    repeat constructor. unfold dim. rewrite E. reflexivity.
  - split; [cbn; lia|]. split.
    + cbn [length]. rewrite length_map, length_seq. cbn. lia.
    + constructor; [reflexivity|]. apply Forall_map, Forall_forall. reflexivity.
Qed.

Lemma split1_rows t l n rest :
  split1 t = Ok l → size t = S n :: rest →
  length l = S n ∧ Forall (λ c, size c = 1 :: rest) l.
Proof.
  unfold split1. intros Hs E. rewrite E in Hs. injection Hs as <-. split.
  - cbn [length]. rewrite length_map, length_seq. reflexivity.
  - constructor; [reflexivity|]. apply Forall_map, Forall_forall. reflexivity.
Qed.

(** ** Concatenation adds up the rows and the elements *)

Lemma cat_from_size rest rows acc rg ts t :
  cat_from rest rows acc rg ts = Ok t →
  size t = (rows + sum_list (batch_size <$> ts)) :: rest ∧
  Forall (λ c, tl (size c) = rest ∧ 1 ≤ dim c) ts.
Proof.
  revert rows acc. induction ts as [|c ts IH]; intros rows acc; cbn.
  - intros [= <-]. cbn. split; [f_equal; lia | constructor].
  - unfold batch_size at 1, dim at 1.
    destruct (size c) as [|n rest'] eqn:E; [discriminate|].
    case_bool_decide as Hr; [|discriminate]. subst rest'.
    intros Hc. apply IH in Hc as [-> Hall]. split.
    + unfold sum_list. cbn. f_equal. lia.
    + constructor; [|exact Hall]. rewrite E. cbn. split; [reflexivity | lia].
Qed.

Lemma sum_list_cons n l : sum_list (n :: l) = n + sum_list l.
Proof. reflexivity. Qed.

Lemma sum_list_skip_legacy (f : Tensor A → nat) (l : list (Tensor A)) :
  (∀ c, size c = [0] → f c = 0) →
  sum_list (f <$> filter (λ c, is_legacy_empty c = false) l)
  = sum_list (f <$> l).
Proof.
  intros Hf. induction l as [|c l IH]; [reflexivity|].
  rewrite filter_cons. destruct (decide (is_legacy_empty c = false)) as [Hc|Hc].
  - rewrite !fmap_cons, !sum_list_cons, IH. reflexivity.
  - rewrite fmap_cons, sum_list_cons, IH. apply not_false_is_true in Hc.
    unfold is_legacy_empty in Hc. apply bool_decide_eq_true in Hc.
    rewrite (Hf c Hc). reflexivity.
Qed.

Lemma cat_batch_size ts t :
  cat ts = Ok t →
  1 ≤ dim t ∧ batch_size t = sum_list (batch_size <$> ts).
Proof.
  unfold cat. destruct ts as [|c0 ts0]; [discriminate|].
  set (ts := c0 :: ts0).
  rewrite <- (sum_list_skip_legacy batch_size ts)
    by (intros c Hc; unfold batch_size; rewrite Hc; reflexivity).
  destruct (filter _ ts) as [|c kept].
  { intros [= <-]. unfold dim. cbn. split; [lia | reflexivity]. }
  destruct (size c) as [|n rest] eqn:E; [discriminate|].
  intros Hc. apply cat_from_size in Hc as [Hsz _].
  unfold dim, batch_size at 1. rewrite Hsz.
  rewrite fmap_cons, sum_list_cons.
  assert (batch_size c = n) as -> by (unfold batch_size; rewrite E; reflexivity).
  cbn [length hd]. split; [lia | reflexivity].
Qed.

Lemma numel_cons_size t n rest :
  size t = n :: rest → numel t = n * prod_list rest.
Proof. unfold numel. intros ->. reflexivity. Qed.

Lemma cat_from_numel rest rows acc rg ts t :
  cat_from rest rows acc rg ts = Ok t →
  numel t = rows * prod_list rest + sum_list (numel <$> ts).
Proof.
  revert rows acc. induction ts as [|c ts IH]; intros rows acc; cbn [cat_from].
  - intros [= <-]. rewrite (numel_cons_size (mkTensor (rows :: rest) acc rg) rows rest eq_refl).
    unfold sum_list. cbn [foldr fmap list_fmap]. lia.
  - destruct (size c) as [|n rest'] eqn:E; [discriminate|].
    case_bool_decide as Hr; [|discriminate]. subst rest'.
    intros Hc. apply IH in Hc as ->.
    rewrite fmap_cons, sum_list_cons, (numel_cons_size c n rest E). lia.
Qed.

Lemma cat_numel ts t :
  cat ts = Ok t → numel t = sum_list (numel <$> ts).
Proof.
  unfold cat. destruct ts as [|c0 ts0]; [discriminate|].
  set (ts := c0 :: ts0).
  rewrite <- (sum_list_skip_legacy numel ts)
    by (intros c Hc; unfold numel; rewrite Hc; reflexivity).
  destruct (filter _ ts) as [|c kept]; [intros [= <-]; reflexivity|].
  destruct (size c) as [|n rest] eqn:E; [discriminate|].
  intros Hc. apply cat_from_numel in Hc as ->.
  rewrite fmap_cons, sum_list_cons, (numel_cons_size c n rest E). reflexivity.
Qed.

Lemma sum_list_const (f : Tensor A → nat) (l : list (Tensor A)) (k : nat) :
  Forall (λ c, f c = k) l → sum_list (f <$> l) = length l * k.
Proof.
  induction 1 as [|c l Hc _ IH]; [reflexivity|].
  rewrite fmap_cons, sum_list_cons, Hc, IH. cbn [length]. lia.
Qed.

Lemma cat_dim ts t r :
  cat ts = Ok t → Forall (λ c, dim c = r) ts → dim t = r.
Proof.
  unfold cat. destruct ts as [|c0 ts0]; [discriminate|]. set (ts := c0 :: ts0).
  intros Hcat Hall.
  destruct (filter (λ c, is_legacy_empty c = false) ts) as [|c kept] eqn:Ef.
  - injection Hcat as <-. apply Forall_cons in Hall as [<- _].
    assert (Hc0 : c0 ∉ filter (λ c, is_legacy_empty c = false) ts)
      by (rewrite Ef; apply not_elem_of_nil).
    rewrite list_elem_of_filter in Hc0.
    destruct (is_legacy_empty c0) eqn:E0.
    + apply bool_decide_eq_true in E0. unfold dim. rewrite E0. reflexivity.
    + exfalso. apply Hc0. split; [done | apply list_elem_of_here].
  - assert (Hc : c ∈ ts).
    { assert (Hin : c ∈ filter (λ c, is_legacy_empty c = false) ts)
        by (rewrite Ef; apply list_elem_of_here).
      apply list_elem_of_filter in Hin as [_ Hin]. exact Hin. }
    rewrite Forall_forall in Hall. rewrite <- (Hall c Hc).
    destruct (size c) as [|n rest] eqn:E; [discriminate|].
    apply cat_from_size in Hcat as [Hsz _].
    unfold dim. rewrite Hsz, E. reflexivity.
Qed.

(** ** Indexing a single row *)

Lemma select1_single_row t d1 rest (k : Z) :
  size t = 1 :: d1 :: rest →
  (0 ≤ k < Z.of_nat d1)%Z →
  select1 t k
  = Ok (mkTensor (1 :: rest)
                 (block (prod_list rest) (Z.to_nat k) (storage t))
                 (requires_grad t)).
Proof.
  intros Hsz Hk. unfold select1. rewrite Hsz.
  rewrite (proj2 (Z.ltb_ge _ _)) by lia.
  rewrite (proj2 (Z.leb_le _ _)) by lia.
  rewrite (proj2 (Z.ltb_lt _ _)) by lia.
  cbn [andb seq flat_map]. rewrite app_nil_r. reflexivity.
Qed.

Lemma length_block (stride i : nat) (l : list A) :
  (i + 1) * stride ≤ length l → length (block stride i l) = stride.
Proof. intros Hl. unfold block. rewrite length_take, length_drop. lia. Qed.

(** ** Broadcasting against a scalar *)

Lemma flat_map_ext_seq {B} (f g : nat → list B) a n :
  (∀ i, a ≤ i < a + n → f i = g i) →
  flat_map f (seq a n) = flat_map g (seq a n).
Proof.
  revert a. induction n as [|n IH]; intros a Hfg; [reflexivity|].
  cbn [seq flat_map]. rewrite (Hfg a) by lia. f_equal. apply IH.
  intros i Hi. apply Hfg. lia.
Qed.

Lemma flat_map_seq_shift {B} (f : nat → list B) a n :
  flat_map f (seq (S a) n) = flat_map (λ i, f (S i)) (seq a n).
Proof.
  revert a. induction n as [|n IH]; intros a; [reflexivity|].
  cbn [seq flat_map]. rewrite IH. reflexivity.
Qed.

Lemma blocks_join (n f : nat) (l : list A) :
  length l = f * n → flat_map (λ i, block n i l) (seq 0 f) = l.
Proof.
  revert l. induction f as [|f IH]; intros l Hl.
  - destruct l; [reflexivity | discriminate].
  - cbn [seq flat_map]. rewrite flat_map_seq_shift.
    rewrite (flat_map_ext_seq _ (λ i, block n i (drop n l))).
    + rewrite IH by (rewrite length_drop; lia).
      unfold block. cbn [Nat.mul drop]. apply take_drop.
    + intros i _. unfold block. rewrite drop_drop. reflexivity.
Qed.

Lemma expand_storage_id (sz : list nat) (l : list A) :
  length l = prod_list sz → expand_storage sz sz l = l.
Proof.
  revert l. induction sz as [|f sz IH]; intros l Hl; [reflexivity|].
  cbn [expand_storage]. rewrite bool_decide_eq_true_2 by done.
  change (prod_list (f :: sz)) with (f * prod_list sz) in Hl.
  rewrite (flat_map_ext_seq _ (λ i, block (prod_list sz) i l)).
  - apply blocks_join. done.
  - intros i Hi. apply IH. apply length_block. nia.
Qed.

Lemma prod_list_ones n : prod_list (replicate n 1) = 1.
Proof. induction n as [|n IH]; [reflexivity|]. cbn. unfold prod_list in IH. lia. Qed.

Lemma mjoin_replicate {B} (t n : nat) (r : B) :
  mjoin (replicate t (replicate n r)) = replicate (t * n) r.
Proof.
  induction t as [|t IH]; [reflexivity|].
  cbn [replicate mjoin list_join Nat.mul]. rewrite replicate_add. f_equal. exact IH.
Qed.

Lemma expand_storage_scalar {B} (sz : list nat) (r : B) :
  expand_storage (replicate (length sz) 1) sz [r] = replicate (prod_list sz) r.
Proof.
  induction sz as [|t sz IH]; [reflexivity|].
  cbn [length replicate expand_storage].
  change (prod_list (t :: sz)) with (t * prod_list sz).
  case_bool_decide as Ht.
  - subst t. cbn [seq flat_map]. rewrite app_nil_r, prod_list_ones.
    unfold block. cbn [Nat.mul drop take]. rewrite IH. f_equal. lia.
  - rewrite IH. apply mjoin_replicate.
Qed.

Lemma broadcast_sizes_scalar (sz : list nat) : broadcast_sizes sz [] = Some sz.
Proof.
  unfold broadcast_sizes. rewrite reverse_nil.
  replace (broadcast_rev (reverse sz) []) with (Some (reverse sz))
    by (destruct (reverse sz); reflexivity).
  cbn. rewrite reverse_involutive. reflexivity.
Qed.

Lemma zip_with_replicate {B C} (op : A → B → C) (l : list A) (r : B) :
  zip_with op l (replicate (length l) r) = (λ v, op v r) <$> l.
Proof. induction l as [|x l IH]; [reflexivity|]. cbn. rewrite IH. reflexivity. Qed.

Lemma pointwise_scalar {B C} (op : A → B → C) t (r : B) rg :
  wf t →
  pointwise op t (mkTensor [] [r] rg)
  = Ok (mkTensor (size t) ((λ v, op v r) <$> storage t) (requires_grad t || rg)).
Proof.
  intros Hwf. unfold pointwise. cbn [size]. rewrite broadcast_sizes_scalar.
  unfold expand_to, dim. cbn [size storage length requires_grad].
  rewrite Nat.sub_diag, Nat.sub_0_r, app_nil_r. cbn [replicate app].
  rewrite expand_storage_id by exact Hwf.
  rewrite expand_storage_scalar. unfold wf, numel in Hwf. rewrite <- Hwf.
  rewrite zip_with_replicate. reflexivity.
Qed.

End tensor_facts.

(** ** The operations at small tensors *)

Example select1_column :
  select1 (mkTensor [2; 3] [1; 2; 3; 4; 5; 6]%Z false) 1
  = Ok (mkTensor [2] [2; 5]%Z false).
Proof. reflexivity. Qed.

Example select1_from_the_end :
  select1 (mkTensor [2; 3] [1; 2; 3; 4; 5; 6]%Z false) (-1)
  = Ok (mkTensor [2] [3; 6]%Z false).
Proof. reflexivity. Qed.

Example select1_rank3 :
  select1 (mkTensor [2; 2; 2] [1; 2; 3; 4; 5; 6; 7; 8]%Z false) 1
  = Ok (mkTensor [2; 2] [3; 4; 7; 8]%Z false).
Proof. reflexivity. Qed.

Example select1_out_of_range :
  select1 (mkTensor [2; 3] [1; 2; 3; 4; 5; 6]%Z false) 3
  = Raise (IndexError "index is out of bounds for dimension 1").
Proof. reflexivity. Qed.

Example pointwise_broadcasts :
  pointwise Z.sub (mkTensor [2; 1] [10; 20]%Z false) (mkTensor [3] [1; 2; 3]%Z true)
  = Ok (mkTensor [2; 3] [9; 8; 7; 19; 18; 17]%Z true).
Proof. reflexivity. Qed.

Example pointwise_mismatch :
  pointwise Z.sub (mkTensor [2; 2] [10; 20; 30; 40]%Z false)
                  (mkTensor [3] [1; 2; 3]%Z false)
  = Raise (RuntimeError "The size of tensor a must match the size of tensor b").
Proof. reflexivity. Qed.

Example split1_rows_of_a_matrix :
  split1 (mkTensor [2; 2] [10; 20; 30; 40]%Z false)
  = Ok [mkTensor [1; 2] [10; 20]%Z false; mkTensor [1; 2] [30; 40]%Z false].
Proof. reflexivity. Qed.

Example split1_no_row :
  split1 (mkTensor [0; 2] ([] : list Z) false)
  = Ok [mkTensor [0; 2] ([] : list Z) false].
Proof. reflexivity. Qed.

Example iter_vector :
  iter (mkTensor [2] [10; 20]%Z false)
  = Ok [mkTensor [] [10]%Z false; mkTensor [] [20]%Z false].
Proof. reflexivity. Qed.

Example cat_skips_legacy_empty :
  cat [mkTensor [1; 2] [10; 20]%Z false; mkTensor [0] [] false;
       mkTensor [2; 2] [1; 2; 3; 4]%Z true]
  = Ok (mkTensor [3; 2] [10; 20; 1; 2; 3; 4]%Z true).
Proof. reflexivity. Qed.

Example cat_nothing :
  cat ([] : list (Tensor Z))
  = Raise (RuntimeError "torch.cat(): expected a non-empty list of Tensors").
Proof. reflexivity. Qed.

Example reshape_flat_scalar :
  reshape_flat (mkTensor [] [7]%Z false) = mkTensor [1] [7]%Z false.
Proof. reflexivity. Qed.

Example squeeze_unit_dimensions :
  squeeze (mkTensor [1; 2; 1] [10; 20]%Z false) = mkTensor [2] [10; 20]%Z false.
Proof. reflexivity. Qed.

(* ================================================================== *)
(** * Facts about the loops of [Decision.forward] *)
(* ================================================================== *)

Lemma zip3_length {A B C} (la : list A) (lb : list B) (lc : list C) :
  length (zip3 la lb lc) = length la `min` (length lb `min` length lc).
Proof.
  revert lb lc. induction la as [|a la IH]; intros [|b lb] [|c lc]; cbn; try lia.
  rewrite IH. lia.
Qed.

Lemma zip3_snd {A B C} (la : list A) (lb : list B) (lc : list C) :
  (zip3 la lb lc).*2 = take (length (zip3 la lb lc)) lc.
Proof.
  revert lb lc. induction la as [|a la IH]; intros [|b lb] [|c lc]; cbn; try reflexivity.
  rewrite IH. reflexivity.
Qed.

Lemma zip3_fst_Forall {A B C} (P : A → Prop) (la : list A) (lb : list B) (lc : list C) :
  Forall P la → Forall (λ x, P x.1.1) (zip3 la lb lc).
Proof.
  intros Hla. revert lb lc.
  induction Hla as [|a la Ha _ IH]; intros [|b lb] [|c lc]; cbn; try constructor; auto.
Qed.

Lemma zip3_mid_Forall {A B C} (P : B → Prop) (la : list A) (lb : list B) (lc : list C) :
  Forall P lb → Forall (λ x, P x.1.2) (zip3 la lb lc).
Proof.
  intros Hlb. revert la lc.
  induction Hlb as [|b lb Hb _ IH]; intros [|a la] [|c lc]; cbn; try constructor; auto.
Qed.

Lemma decide_and_then (P Q : Prop) `{!Decision P, !Decision Q} {A} (x y : A) :
  (if decide (P ∧ Q) then x else y)
  = if decide P then (if decide Q then x else y) else y.
Proof. destruct (decide P), (decide Q), (decide (P ∧ Q)); tauto || reflexivity. Qed.

Section store_facts.
Context {R W : Type} `{DecisionMethods R W}.
Implicit Types (s : Store R W) (self : DecisionModule R) (mx rf : ref).

Lemma mx_append_run mx key v s :
  mx_append mx key v s = (Ok tt, appended mx key v s).
Proof. reflexivity. Qed.

Lemma field_at_appended mx key v s mx' key' :
  field_at (appended mx key v s) mx' key'
  = field_at s mx' key' ++ (if decide (mx' = mx ∧ key' = key) then [v] else []).
Proof.
  unfold field_at, meta_at, appended, MetaInformation.append, MetaInformation.field.
  cbn [metas].
  destruct (decide (mx' = mx)) as [->|Hmx].
  - rewrite lookup_insert_eq. cbn [default from_option id].
    destruct (decide (key' = key)) as [->|Hkey].
    + rewrite lookup_insert_eq. cbn [default from_option id].
      rewrite decide_True by done. reflexivity.
    + rewrite lookup_insert_ne by done.
      rewrite decide_False by (intros [_ ?]; done). rewrite app_nil_r. reflexivity.
  - rewrite lookup_insert_ne by done.
    rewrite decide_False by (intros [? _]; done). rewrite app_nil_r. reflexivity.
Qed.

Lemma metas_appended_ne mx key v s mx' :
  mx' ≠ mx → metas (appended mx key v s) !! mx' = metas s !! mx'.
Proof. intros Hne. unfold appended. cbn [metas]. rewrite lookup_insert_ne; done. Qed.

Lemma record_step_run self step s :
  record_step self tt step s = (Ok tt, recorded self step s).
Proof. destruct step as [[a d] mx]. reflexivity. Qed.

Lemma field_at_recorded self step s mx key :
  field_at (recorded self step s) mx key
  = field_at s mx key
    ++ (if decide (mx = step.2) then step_entries self step key else []).
Proof.
  destruct step as [[a d] mx0]. unfold recorded, step_entries. cbn [fst snd].
  change (field_at (registered ?rf ?d ?a ?s) mx key) with (field_at s mx key).
  rewrite !field_at_appended, <- !app_assoc, !decide_and_then. f_equal.
  destruct (decide (mx = mx0)); reflexivity.
Qed.

Lemma metas_recorded_ne self step s mx :
  mx ≠ step.2 → metas (recorded self step s) !! mx = metas s !! mx.
Proof.
  destruct step as [[a d] mx0]. cbn [snd]. intros Hne. unfold recorded.
  change (metas (registered ?rf ?d ?a ?s)) with (metas s).
  rewrite !metas_appended_ne by done. reflexivity.
Qed.

Lemma rewards_recorded_ne self step s rf :
  rf ≠ additional_reward_func self →
  rewards (recorded self step s) !! rf = rewards s !! rf.
Proof.
  destruct step as [[a d] mx0]. intros Hne. unfold recorded, registered.
  cbn [rewards]. rewrite lookup_insert_ne by done. reflexivity.
Qed.

Lemma reward_at_recorded self step s :
  reward_at (recorded self step s) (additional_reward_func self)
  = reward_at s (additional_reward_func self) ++ [(step.1.2, step.1.1)].
Proof.
  destruct step as [[a d] mx0]. unfold recorded, registered, reward_at at 1.
  cbn [rewards]. rewrite lookup_insert_eq. reflexivity.
Qed.

Lemma world_recorded self step s : world (recorded self step s) = world s.
Proof. destruct step as [[a d] mx0]. reflexivity. Qed.

(** The recording loop never raises; its store is the fold of
    [recorded]. *)
Lemma record_loop_run self steps s :
  for_ steps tt (record_step self) s
  = (Ok tt, foldl (λ s step, recorded self step s) s steps).
Proof.
  revert s. induction steps as [|step steps IH]; intros s; [reflexivity|].
  cbn [for_ foldl]. unfold mbind, Eff_bind. rewrite record_step_run. apply IH.
Qed.

Lemma record_loop_field self steps s mx key :
  field_at (foldl (λ s step, recorded self step s) s steps) mx key
  = field_at s mx key
    ++ flat_map (λ step, if decide (mx = step.2)
                         then step_entries self step key else []) steps.
Proof.
  revert s. induction steps as [|step steps IH]; intros s; cbn [foldl flat_map].
  - rewrite app_nil_r. reflexivity.
  - rewrite IH, field_at_recorded, <- app_assoc. reflexivity.
Qed.

Lemma record_loop_metas_ne self steps s mx :
  mx ∉ steps.*2 →
  metas (foldl (λ s step, recorded self step s) s steps) !! mx = metas s !! mx.
Proof.
  revert s. induction steps as [|step steps IH]; intros s Hnot; [reflexivity|].
  cbn [foldl]. rewrite fmap_cons in Hnot. apply not_elem_of_cons in Hnot as [Hne Hnot].
  rewrite IH by done. apply metas_recorded_ne. done.
Qed.

Lemma record_loop_rewards_ne self steps s rf :
  rf ≠ additional_reward_func self →
  rewards (foldl (λ s step, recorded self step s) s steps) !! rf = rewards s !! rf.
Proof.
  intros Hne. revert s. induction steps as [|step steps IH]; intros s; [reflexivity|].
  cbn [foldl]. rewrite IH. apply rewards_recorded_ne. done.
Qed.

Lemma record_loop_reward self steps s :
  reward_at (foldl (λ s step, recorded self step s) s steps)
            (additional_reward_func self)
  = reward_at s (additional_reward_func self)
    ++ ((λ step, (step.1.2, step.1.1)) <$> steps).
Proof.
  revert s. induction steps as [|step steps IH]; intros s; cbn [foldl].
  - rewrite app_nil_r. reflexivity.
  - rewrite IH, reward_at_recorded, fmap_cons, <- app_assoc. reflexivity.
Qed.

Lemma record_loop_world self steps s :
  world (foldl (λ s step, recorded self step s) s steps) = world s.
Proof.
  revert s. induction steps as [|step steps IH]; intros s; [reflexivity|].
  cbn [foldl]. rewrite IH. apply world_recorded.
Qed.

End store_facts.

Section forward_facts.
Context {R W : Type} `{DecisionMethods R W}.
Implicit Types (s : Store R W) (self : DecisionModule R) (mx rf : ref).

Lemma normalize_dist_eq (g : Tensor R) :
  normalize_dist g
  = Ok (if (dim g <? 3)%nat
        then mkTensor (size g ++ [1]) (storage g) (requires_grad g)
        else g).
Proof.
  unfold normalize_dist. destruct (dim g <? 3)%nat; [apply unsqueeze_last | reflexivity].
Qed.

Lemma normalize_dist_batch (g g' : Tensor R) :
  normalize_dist g = Ok g' → 1 ≤ dim g →
  1 ≤ dim g' ∧ batch_size g' = batch_size g.
Proof.
  rewrite normalize_dist_eq. intros [= <-] Hd.
  destruct (dim g <? 3)%nat; [|done].
  unfold dim, batch_size in *. cbn [size]. rewrite length_app.
  destruct (size g); cbn in *; lia.
Qed.

Lemma call_forward_run self x mxs pa s :
  call_forward self x mxs pa s
  = ((_forward self x mxs pa (world s)).1,
     mkStore (metas s) (rewards s) (_forward self x mxs pa (world s)).2).
Proof. unfold call_forward. destruct (_forward _ _ _ _ _). reflexivity. Qed.

(** One turn of the loop over the rows touches no container and no
    reward function, whatever its outcome. *)
Lemma agent_step_frame self acc row s :
  metas (agent_step self acc row s).2 = metas s ∧
  rewards (agent_step self acc row s).2 = rewards s.
Proof.
  destruct acc as [[actions dists] ys], row as [[x mx] pa].
  unfold agent_step, mbind, Eff_bind. rewrite call_forward_run.
  destruct (_forward _ _ _ _ _) as [[[[y a] g]|e] w]; cbn [fst snd]; [|done].
  unfold pure. destruct (normalize_dist g); done.
Qed.

Lemma agent_loop_frame self rows acc s :
  metas (for_ rows acc (agent_step self) s).2 = metas s ∧
  rewards (for_ rows acc (agent_step self) s).2 = rewards s.
Proof.
  revert acc s. induction rows as [|row rows IH]; intros acc s; [done|].
  cbn [for_]. unfold mbind, Eff_bind.
  pose proof (agent_step_frame self acc row s) as [Hm Hr].
  destruct (agent_step self acc row s) as [[acc'|e] s1]; cbn [snd] in *.
  - destruct (IH acc' s1) as [-> ->]. done.
  - done.
Qed.

Lemma agent_step_ok self acc row s acc' s' :
  forward_contract →
  agent_step self acc row s = (Ok acc', s') →
  batch_size row.1.1 = 1 →
  ∃ y a g, acc' = (acc.1.1 ++ [a], acc.1.2 ++ [g], acc.2 ++ [y]) ∧
           numel a = 1 ∧ 1 ≤ dim g ∧ batch_size g = 1.
Proof.
  intros Hc. destruct acc as [[actions dists] ys], row as [[x mx] pa].
  unfold agent_step, mbind, Eff_bind. rewrite call_forward_run. cbn [fst snd].
  destruct (_forward self x [mx] pa (world s)) as [[[[y a] g0]|e] w] eqn:E;
    cbn [fst snd]; [|discriminate].
  unfold pure. destruct (normalize_dist g0) as [g|e] eqn:En; [|discriminate].
  intros [= <- <-] Hx. apply Hc in E as (Ha & Hd & Hb).
  apply normalize_dist_batch in En as [Hd' Hb']; [|done].
  exists y, a, g. repeat split; [congruence | done | congruence].
Qed.

Lemma agent_loop_ok self rows acc s res s' :
  forward_contract →
  for_ rows acc (agent_step self) s = (Ok res, s') →
  Forall (λ row, batch_size row.1.1 = 1) rows →
  ∃ actions dists ys,
    res = (acc.1.1 ++ actions, acc.1.2 ++ dists, acc.2 ++ ys) ∧
    length actions = length rows ∧ length dists = length rows ∧
    Forall (λ a, numel a = 1) actions ∧
    Forall (λ g, batch_size g = 1) dists.
Proof.
  intros Hc. revert acc s. induction rows as [|row rows IH]; intros acc s.
  - intros [= <- <-] _. exists [], [], []. rewrite !app_nil_r.
    destruct acc as [[? ?] ?]. repeat split; constructor.
  - cbn [for_]. unfold mbind, Eff_bind.
    destruct (agent_step self acc row s) as [[acc1|e] s1] eqn:E1; [|discriminate].
    intros Hloop Hrows. apply Forall_cons in Hrows as [Hrow Hrows].
    destruct (agent_step_ok _ _ _ _ _ _ Hc E1 Hrow) as (y & a & g & -> & Ha & Hd & Hb).
    destruct (IH _ _ Hloop Hrows) as (actions & dists & ys & -> & Hla & Hld & Hfa & Hfd).
    exists (a :: actions), (g :: dists), (y :: ys). cbn [fst snd length].
    rewrite <- !app_assoc. repeat split; try (f_equal; done); constructor; done.
Qed.

(** The stores a call of [forward] goes through: up to the recording
    loop nothing but [world] changes; the loop runs over [steps]. *)
Lemma forward_ok_inv self xs mxs pas s ys mxs' actions s' :
  forward_contract →
  forward self xs mxs pas s = (Ok (ys, mxs', actions), s') →
  batch_size xs = length mxs →
  mxs' = mxs ∧ size actions = [rows_reached self mxs pas] ∧
  ∃ steps s0,
    length steps = rows_reached self mxs pas ∧
    steps.*2 = take (rows_reached self mxs pas) mxs ∧
    metas s0 = metas s ∧ rewards s0 = rewards s ∧
    s' = foldl (λ s step, recorded self step s) s0 steps.
Proof.
  intros Hc Hrun Hlen. unfold forward in Hrun.
  unfold mbind at 1, Eff_bind at 1 in Hrun.
  set (k := rows_reached self mxs pas).
  assert (Hkle : k ≤ length mxs).
  { unfold k, rows_reached. destruct (1 <? _num_agents self)%Z; [|lia].
    destruct pas; lia. }
  match type of Hrun with
  | match ?m s with _ => _ end = _ =>
      assert (∃ ys0 actions0 dists0 s0,
        m s = (Ok (ys0, actions0, dists0), s0) ∧
        metas s0 = metas s ∧ rewards s0 = rewards s ∧
        numel actions0 = k ∧ 1 ≤ dim dists0 ∧ batch_size dists0 = k)
        as (ys0 & actions0 & dists0 & s0 & Hfirst & Hm0 & Hr0 & Hna & Hdd & Hbd)
  end.
  { unfold k, rows_reached in *.
    destruct (1 <? _num_agents self)%Z.
    - destruct pas as [l|]; [|discriminate].
      unfold mbind, Eff_bind, pure in Hrun |- *.
      destruct (split1 xs) as [rows|e] eqn:Es; [|discriminate].
      pose proof (agent_loop_frame self (zip3 rows mxs l) ([], [], []) s) as [Hm Hr].
      destruct (for_ (zip3 rows mxs l) ([], [], []) (agent_step self) s)
        as [[[[al dl] yl]|e] s1] eqn:Eloop; [|discriminate].
      cbn [snd] in Hm, Hr.
      destruct (cat al) as [a|e] eqn:Ea; [|discriminate].
      destruct (cat dl) as [d|e] eqn:Ed; [|discriminate].
      destruct (cat yl) as [y|e] eqn:Ey; [|discriminate].
      (* the rows of [xs] *)
      assert (Hrows : length rows = length mxs ∧
                      Forall (λ x, batch_size x = 1) rows ∨ zip3 rows mxs l = []).
      { destruct mxs as [|mx mxs]; [right; destruct rows, l; reflexivity|]. left.
        unfold batch_size in Hlen. cbn [length] in Hlen.
        destruct (size xs) as [|n rest] eqn:Exs; [discriminate|]. cbn [hd] in Hlen.
        subst n. destruct (split1_rows xs rows _ rest Es Exs) as [Hlr Hfr].
        split; [done|]. eapply Forall_impl; [exact Hfr|].
        intros c Hsc. unfold batch_size. rewrite Hsc. reflexivity. }
      destruct Hrows as [[Hlr Hfr] | Hnil].
      2:{ rewrite Hnil in Eloop. injection Eloop as <- <- <- <-. discriminate. }
      destruct (agent_loop_ok self _ _ _ _ _ Hc Eloop (zip3_fst_Forall _ _ _ _ Hfr))
        as (al' & dl' & yl' & [= -> -> ->] & Hla & Hld & Hfa & Hfd).
      rewrite zip3_length in Hla, Hld.
      eexists y, a, d, s1. split; [reflexivity|].
      apply cat_numel in Ea. apply cat_batch_size in Ed as [Hdd Hbd].
      rewrite (sum_list_const _ _ 1 Hfa) in Ea.
      rewrite (sum_list_const _ _ 1 Hfd) in Hbd.
      repeat split; try done; lia.
    - rewrite call_forward_run in Hrun |- *.
      destruct (_forward self xs mxs 0 (world s)) as [[[[y a] d]|e] w] eqn:E;
        cbn [fst snd] in *; [|discriminate].
      apply Hc in E as (Ha & Hd & Hb).
      eexists y, a, d, _. split; [reflexivity|]. cbn [metas rewards].
      repeat split; congruence. }
  rewrite Hfirst in Hrun. unfold mbind, Eff_bind, pure in Hrun.
  destruct (split1 dists0) as [ds|e] eqn:Eds; [|discriminate].
  destruct (iter_reshape_flat actions0) as (as_ & Eit & Hlas & _).
  rewrite Eit in Hrun. rewrite record_loop_run in Hrun.
  injection Hrun as <- <- <- <-.
  split; [reflexivity|]. split; [cbn; congruence|].
  exists (zip3 as_ ds mxs), s0.
  apply split1_length in Eds as (_ & Hlds & _).
  assert (Hz : length (zip3 as_ ds mxs) = k) by (rewrite zip3_length; lia).
  rewrite zip3_snd, Hz. done.
Qed.

(** Without [prior_actions] a module of several agents stops at once. *)
Lemma forward_none_run self (xs : Tensor R) (mxs : list ref) s :
  (1 < _num_agents self)%Z →
  forward self xs mxs None s = (Raise (ValueError prior_actions_msg), s).
Proof.
  intros Hn. unfold forward. rewrite (proj2 (Z.ltb_lt _ _) Hn). reflexivity.
Qed.

(** A call that returns on a batch with a prior action for every
    container has gone through all the rows. *)
Lemma rows_reached_full self (xs : Tensor R) (mxs : list ref) pas s res s' :
  forward self xs mxs pas s = (Ok res, s') →
  ((1 < _num_agents self)%Z → ∀ l, pas = Some l → length l = length mxs) →
  rows_reached self mxs pas = length mxs.
Proof.
  intros Hrun Hpas. unfold rows_reached.
  destruct (1 <? _num_agents self)%Z eqn:En; [|reflexivity].
  apply Z.ltb_lt in En. destruct pas as [l|].
  - rewrite (Hpas En l eq_refl). lia.
  - rewrite (forward_none_run self xs mxs s En) in Hrun. discriminate.
Qed.

End forward_facts.

Section forward_frame.
Context {R W : Type} `{DecisionMethods R W}.
Implicit Types (s : Store R W) (self : DecisionModule R) (mx rf : ref).

(** Whatever its outcome, a call of [forward] changes the containers
    and the reward functions only through its recording loop, which
    runs over a prefix of [mxs]. *)
Lemma forward_frame self xs mxs pas s :
  ∃ s0 steps,
    metas s0 = metas s ∧ rewards s0 = rewards s ∧
    (forward self xs mxs pas s).2 = foldl (λ s step, recorded self step s) s0 steps ∧
    steps.*2 = take (length steps) mxs.
Proof.
  assert (Hstop : ∀ s0 : Store R W, metas s0 = metas s → rewards s0 = rewards s →
    ∃ s1 steps, metas s1 = metas s ∧ rewards s1 = rewards s ∧
      s0 = foldl (λ s step, recorded self step s) s1 steps ∧
      steps.*2 = take (length steps) mxs).
  { intros s0 Hm Hr. exists s0, []. done. }
  unfold forward. unfold mbind at 1, Eff_bind at 1.
  match goal with
  | |- context [match ?m s with _ => _ end] =>
      assert (metas (m s).2 = metas s ∧ rewards (m s).2 = rewards s) as [Hm Hr];
      [| destruct (m s) as [[[[ys0 actions0] dists0]|e] s0]; cbn [snd] in Hm, Hr;
         [| cbn [snd]; apply Hstop; done] ]
  end.
  { destruct (1 <? _num_agents self)%Z.
    - destruct pas as [l|]; [|done].
      unfold mbind, Eff_bind, pure. destruct (split1 xs) as [rows|e]; [|done].
      pose proof (agent_loop_frame self (zip3 rows mxs l) ([], [], []) s) as [Hm Hr].
      destruct (for_ (zip3 rows mxs l) ([], [], []) (agent_step self) s)
        as [[[[al dl] yl]|e] s1]; cbn [snd] in *; [|done].
      destruct (cat al); [|done]. destruct (cat dl); [|done]. destruct (cat yl); done.
    - rewrite call_forward_run. done. }
  unfold mbind, Eff_bind, pure.
  destruct (split1 dists0) as [ds|e]; [|cbn [snd]; apply Hstop; done].
  destruct (iter_reshape_flat actions0) as (as_ & -> & _).
  rewrite record_loop_run. cbn [snd].
  exists s0, (zip3 as_ ds mxs). rewrite zip3_snd. done.
Qed.

Lemma flat_map_all_nil {A B} (g : A → list B) (l : list A) :
  (∀ y, y ∈ l → g y = []) → flat_map g l = [].
Proof.
  induction l as [|x l IH]; intros Hg; [done|]. cbn [flat_map].
  rewrite (Hg x) by apply list_elem_of_here.
  apply IH. intros y Hy. apply Hg. apply list_elem_of_further. done.
Qed.

Lemma flat_map_NoDup_pick {A B} (f : A * ref → list B) (l : list (A * ref)) i st :
  NoDup l.*2 → l !! i = Some st →
  flat_map (λ step, if decide (st.2 = step.2) then f step else []) l = f st.
Proof.
  revert i. induction l as [|x l IH]; intros i Hnd Hi; [done|].
  rewrite fmap_cons in Hnd. apply NoDup_cons in Hnd as [Hx Hnd].
  cbn [flat_map]. destruct i as [|i]; cbn in Hi.
  - injection Hi as ->. rewrite decide_True by done.
    rewrite flat_map_all_nil; [apply app_nil_r|].
    intros y Hy. rewrite decide_False; [done|].
    intros Heq. apply Hx. rewrite Heq. apply list_elem_of_fmap.
    exists y. done.
  - rewrite decide_False.
    + cbn [app]. eapply IH; done.
    + intros Heq. apply Hx. rewrite <- Heq. apply list_elem_of_fmap.
      exists st. split; [done|]. eapply list_elem_of_lookup_2. done.
Qed.

Lemma step_entries_actions self step :
  step_entries self step "actions" = [VLong step.1.1].
Proof. reflexivity. Qed.
Lemma step_entries_states self step :
  step_entries self step "states" = [VFloat step.1.2].
Proof. reflexivity. Qed.
Lemma step_entries_loss_funcs self step :
  step_entries self step "loss_funcs" = [VFunc (_loss self)].
Proof. reflexivity. Qed.
Lemma step_entries_reward_func self step :
  step_entries self step "reward_func" = [VRef (additional_reward_func self)].
Proof. reflexivity. Qed.

(** The fields of a container that the recording loop reaches once,
    and of one it does not reach. *)
Lemma record_loop_once self steps s s0 i step key :
  metas s0 = metas s → NoDup steps.*2 → steps !! i = Some step →
  field_at (foldl (λ s step, recorded self step s) s0 steps) step.2 key
  = field_at s step.2 key ++ step_entries self step key.
Proof.
  intros Hm Hnd Hi. rewrite record_loop_field.
  rewrite (flat_map_NoDup_pick (λ st, step_entries self st key) steps i step Hnd Hi).
  unfold field_at, meta_at. rewrite Hm. reflexivity.
Qed.

Lemma NoDup_not_in_take (mxs : list ref) k i mx :
  NoDup mxs → mxs !! i = Some mx → k ≤ i → mx ∉ take k mxs.
Proof.
  intros Hnd Hi Hk Hin. apply list_elem_of_lookup in Hin as [j Hj].
  assert (j < k).
  { apply lookup_lt_Some in Hj. rewrite length_take in Hj. lia. }
  rewrite lookup_take_lt in Hj by done.
  pose proof (NoDup_lookup _ _ _ _ Hnd Hi Hj). lia.
Qed.

(** What a call that returns has done to the containers. *)
Lemma forward_ok_containers self (xs : Tensor R) (mxs : list ref) pas s
    ys mxs' actions s' :
  forward_contract →
  forward self xs mxs pas s = (Ok (ys, mxs', actions), s') →
  batch_size xs = length mxs →
  NoDup mxs →
  (∀ i mx, mxs !! i = Some mx → i < rows_reached self mxs pas →
     ∃ step, ∀ key,
       field_at s' mx key = field_at s mx key ++ step_entries self step key) ∧
  (∀ i mx, mxs !! i = Some mx → rows_reached self mxs pas ≤ i →
     metas s' !! mx = metas s !! mx).
Proof.
  intros Hc Hrun Hlen Hnd.
  destruct (forward_ok_inv self xs mxs pas s ys mxs' actions s' Hc Hrun Hlen)
    as (_ & _ & steps & s0 & Hls & Hsnd & Hm0 & _ & ->).
  split.
  - intros i mx Hi Hik.
    assert (∃ step, steps !! i = Some step ∧ step.2 = mx) as (step & Hstep & <-).
    { assert (Hi' : steps.*2 !! i = Some mx) by (rewrite Hsnd, lookup_take_lt; done).
      rewrite list_lookup_fmap in Hi'.
      destruct (steps !! i) as [step|]; [|discriminate].
      exists step. split; [done|]. injection Hi' as <-. done. }
    exists step. intros key. apply (record_loop_once self steps s s0 i); [done| |done].
    rewrite Hsnd. eapply sublist_NoDup; [exact Hnd | apply sublist_take].
  - intros i mx Hi Hik. rewrite record_loop_metas_ne, Hm0; [done|].
    rewrite Hsnd. eapply NoDup_not_in_take; done.
Qed.

Lemma Forall_flat_map {A B} (P : B → Prop) (f : A → list B) (l : list A) :
  (∀ x, x ∈ l → Forall P (f x)) → Forall P (flat_map f l).
Proof.
  induction l as [|x l IH]; intros Hf; [constructor|]. cbn [flat_map].
  apply Forall_app. split.
  - apply Hf, list_elem_of_here.
  - apply IH. intros y Hy. apply Hf, list_elem_of_further. done.
Qed.

(** A call on a module of one agent, step by step. *)
Lemma forward_single_run self (xs : Tensor R) (mxs : list ref) pas s ys a d w ds :
  ¬ (1 < _num_agents self)%Z →
  _forward self xs mxs 0 (world s) = (Ok (ys, a, d), w) →
  split1 d = Ok ds →
  ∃ as_, iter (reshape_flat a) = Ok as_ ∧
    forward self xs mxs pas s
    = (Ok (ys, mxs, reshape_flat a),
       foldl (λ s step, recorded self step s)
             (mkStore (metas s) (rewards s) w) (zip3 as_ ds mxs)).
Proof.
  intros Hn E Es. destruct (iter_reshape_flat a) as (as_ & Eit & _).
  exists as_. split; [done|].
  unfold forward. rewrite (proj2 (Z.ltb_nlt _ _) Hn).
  unfold mbind at 1, Eff_bind at 1. rewrite call_forward_run, E. cbn [fst snd].
  unfold mbind, Eff_bind, pure. rewrite Es, Eit, record_loop_run. reflexivity.
Qed.

(** A call on a module of several agents that returns, step by step. *)
Lemma forward_multi_run self (xs : Tensor R) (mxs : list ref) l s res s' :
  (1 < _num_agents self)%Z →
  forward self xs mxs (Some l) s = (Ok res, s') →
  ∃ rows al dl yl s1 a d y ds as_,
    split1 xs = Ok rows ∧
    for_ (zip3 rows mxs l) ([], [], []) (agent_step self) s = (Ok (al, dl, yl), s1) ∧
    cat al = Ok a ∧ cat dl = Ok d ∧ cat yl = Ok y ∧
    split1 d = Ok ds ∧ iter (reshape_flat a) = Ok as_ ∧
    res = (y, mxs, reshape_flat a) ∧
    s' = foldl (λ s step, recorded self step s) s1 (zip3 as_ ds mxs).
Proof.
  intros Hn. unfold forward. rewrite (proj2 (Z.ltb_lt _ _) Hn).
  unfold mbind, Eff_bind, pure.
  destruct (split1 xs) as [rows|e] eqn:Ex; [|discriminate].
  destruct (for_ (zip3 rows mxs l) ([], [], []) (agent_step self) s)
    as [[[[al dl] yl]|e] s1] eqn:Eloop; [|discriminate].
  destruct (cat al) as [a|e] eqn:Ea; [|discriminate].
  destruct (cat dl) as [d|e] eqn:Ed; [|discriminate].
  destruct (cat yl) as [y|e] eqn:Ey; [|discriminate].
  unfold mret, Eff_ret. cbn beta iota.
  destruct (split1 d) as [ds|e] eqn:Es; [|discriminate].
  destruct (iter (reshape_flat a)) as [as_|e] eqn:Ei; [|discriminate].
  rewrite record_loop_run. intros Hrun. injection Hrun as <- <-.
  exists rows, al, dl, yl, s1, a, d, y, ds, as_. done.
Qed.

(** The loop over the rows brings every generating distribution of two
    or three dimensions to three. *)
Lemma agent_loop_dims self rows acc s res s' :
  (∀ x mxs pa w y a d w',
     _forward self x mxs pa w = (Ok (y, a, d), w') → dim d = 2 ∨ dim d = 3) →
  for_ rows acc (agent_step self) s = (Ok res, s') →
  Forall (λ g, dim g = 3) acc.1.2 → Forall (λ g, dim g = 3) res.1.2.
Proof.
  intros Hrank. revert acc s. induction rows as [|row rows IH]; intros acc s.
  - intros [= <- <-]. done.
  - cbn [for_]. unfold mbind at 1, Eff_bind at 1.
    destruct (agent_step self acc row s) as [[acc1|e] s1] eqn:E1; [|discriminate].
    intros Hloop Hacc. apply (IH _ _ Hloop). clear Hloop IH.
    destruct acc as [[actions dists] ys], row as [[x mx] pa].
    unfold agent_step, mbind, Eff_bind in E1. rewrite call_forward_run in E1.
    destruct (_forward self x [mx] pa (world s)) as [[[[y a] g0]|e] w] eqn:E;
      cbn [fst snd] in E1; [|discriminate].
    unfold pure in E1. rewrite normalize_dist_eq in E1. injection E1 as <- <-.
    cbn [fst snd] in *. apply Forall_app. split; [done|]. constructor; [|constructor].
    apply Hrank in E as [E|E]; rewrite E; [|done].
    unfold dim in *. cbn [Nat.ltb Nat.leb size]. rewrite length_app, E. reflexivity.
Qed.

(** The path of several agents: there the states recorded have three
    dimensions. *)
Lemma forward_multi_agent_state_rank self (xs : Tensor R) (mxs : list ref) l s
    res s' mx :
  (1 < _num_agents self)%Z →
  (∀ x mxs pa w y a d w',
     _forward self x mxs pa w = (Ok (y, a, d), w') → dim d = 2 ∨ dim d = 3) →
  forward self xs mxs (Some l) s = (Ok res, s') →
  ∃ new,
    field_at s' mx "states" = field_at s mx "states" ++ new ∧
    Forall (λ v, ∃ t, v = VFloat t ∧ dim t = 3) new.
Proof.
  intros Hn Hrank Hrun.
  destruct (forward_multi_run self xs mxs l s res s' Hn Hrun)
    as (rows & al & dl & yl & s1 & a & d & y & ds & as_
        & _ & Eloop & _ & Ed & _ & Es & _ & _ & ->).
  pose proof (agent_loop_frame self (zip3 rows mxs l) ([], [], []) s) as [Hm _].
  rewrite Eloop in Hm. cbn [snd] in Hm.
  pose proof (agent_loop_dims self _ _ _ _ _ Hrank Eloop (Forall_nil_2 _)) as Hdl.
  cbn [fst snd] in Hdl. pose proof (cat_dim dl d 3 Ed Hdl) as Hd.
  apply split1_length in Es as (_ & _ & Hds).
  rewrite record_loop_field. eexists. split.
  { unfold field_at, meta_at. rewrite Hm. reflexivity. }
  apply Forall_flat_map. intros step Hstep.
  destruct (decide (mx = step.2)); [|constructor].
  rewrite step_entries_states. constructor; [|constructor].
  exists step.1.2. split; [done|].
  pose proof (zip3_mid_Forall _ as_ ds mxs Hds) as Hz.
  rewrite Forall_forall in Hz. rewrite (Hz step Hstep). exact Hd.
Qed.

(** Under each of the four keys the loop adds as many entries as it has
    steps for the container. *)
Lemma record_loop_count self (steps : list (Tensor Z * Tensor R * ref)) mx key :
  key ∈ ["actions"; "states"; "loss_funcs"; "reward_func"] →
  length (flat_map (λ step, if decide (mx = step.2)
                            then step_entries self step key else []) steps)
  = length (filter (λ step, mx = step.2) steps).
Proof.
  intros Hkey. induction steps as [|step steps IH]; [reflexivity|].
  cbn [flat_map]. rewrite length_app, filter_cons, IH.
  destruct (decide (mx = step.2)); [|reflexivity]. cbn [length]. f_equal.
  repeat (apply elem_of_cons in Hkey as [->|Hkey]; [reflexivity|]).
  apply elem_of_nil in Hkey. done.
Qed.

(** Whatever the call does, sequences of equal lengths stay so, in
    every container. *)
Lemma forward_keeps_aligned self (xs : Tensor R) (mxs : list ref) pas s mx :
  aligned s mx → aligned (forward self xs mxs pas s).2 mx.
Proof.
  destruct (forward_frame self xs mxs pas s) as (s0 & steps & Hm & _ & -> & _).
  unfold aligned. rewrite !record_loop_field, !length_app.
  rewrite !record_loop_count by (repeat constructor).
  unfold field_at, meta_at. rewrite Hm. lia.
Qed.

End forward_frame.

(* ================================================================== *)
(** * Properties of [Decision.forward] *)
(* ================================================================== *)

Section forward_properties.
Context {R W : Type} `{DecisionMethods R W}.
Implicit Types (s : Store R W) (self : DecisionModule R) (mx rf : ref).

(** C4. A module with more than one agent, called without
    [prior_actions], raises [ValueError] with the message about
    [prior_actions], and the store is the one the call started from: no
    container has been appended to, no pair registered, and [_forward]
    has not run. *)
Theorem forward_missing_prior_actions self (xs : Tensor R) (mxs : list ref) s :
  (1 < _num_agents self)%Z →
  forward self xs mxs None s = (Raise (ValueError prior_actions_msg), s) ∧
  ∃ pre post, prior_actions_msg = (pre ++ "`prior_actions`" ++ post)%string.
Proof.
  intros Hn. split.
  - apply forward_none_run. exact Hn.
  - exists "If multiple agents are available, argument ".
    eexists. reflexivity.
Qed.

(** C8. A generating distribution that already has three dimensions
    goes through the normalization unchanged, so that normalizing twice
    is normalizing once; the loop over the rows puts that very tensor
    into [dists]. *)
Theorem normalize_dist_rank3 (g : Tensor R) :
  dim g = 3 →
  normalize_dist g = Ok g ∧
  (g' ← normalize_dist g; normalize_dist g') = normalize_dist g ∧
  ∀ self actions dists ys x mx pa s y a w,
    _forward self x [mx] pa (world s) = (Ok (y, a, g), w) →
    agent_step self (actions, dists, ys) (x, mx, pa) s
    = (Ok (actions ++ [a], dists ++ [g], ys ++ [y]),
       mkStore (metas s) (rewards s) w).
Proof.
  intros Hg.
  assert (Hn : normalize_dist g = Ok g).
  { rewrite normalize_dist_eq, Hg. reflexivity. }
  split; [exact Hn|]. split.
  - rewrite Hn. exact Hn.
  - intros self actions dists ys x mx pa s y a w E.
    unfold agent_step, mbind, Eff_bind. rewrite call_forward_run, E. cbn [fst snd].
    unfold pure. rewrite Hn. reflexivity.
Qed.

(** C3. For each container [mx] of the batch: whatever the call does,
    if its four sequences "actions", "states", "loss_funcs" and
    "reward_func" had equal lengths before, they have equal lengths
    after; and a call that returns, on a batch whose rows, containers
    and (for several agents) prior actions are as many, with a
    [_forward] that answers row by row, has put exactly one more entry
    at the end of each of the four. *)
Theorem forward_appends_one_step self (xs : Tensor R) (mxs : list ref)
    (pas : option (list Z)) s i mx :
  mxs !! i = Some mx →
  (aligned s mx → aligned (forward self xs mxs pas s).2 mx) ∧
  ∀ ys mxs' actions s',
    forward self xs mxs pas s = (Ok (ys, mxs', actions), s') →
    forward_contract →
    batch_size xs = length mxs →
    NoDup mxs →
    ((1 < _num_agents self)%Z → ∀ l, pas = Some l → length l = length mxs) →
    ∃ a d,
      field_at s' mx "actions" = field_at s mx "actions" ++ [VLong a] ∧
      field_at s' mx "states" = field_at s mx "states" ++ [VFloat d] ∧
      field_at s' mx "loss_funcs"
      = field_at s mx "loss_funcs" ++ [VFunc (_loss self)] ∧
      field_at s' mx "reward_func"
      = field_at s mx "reward_func" ++ [VRef (additional_reward_func self)].
Proof.
  intros Hi. split; [apply forward_keeps_aligned|].
  intros ys mxs' actions s' Hrun Hc Hlen Hnd Hpas.
  destruct (forward_ok_containers self xs mxs pas s ys mxs' actions s'
              Hc Hrun Hlen Hnd) as [Hin _].
  rewrite (rows_reached_full self xs mxs pas s _ s' Hrun Hpas) in Hin.
  destruct (Hin i mx Hi) as [step Hf]; [eapply lookup_lt_Some; done|].
  exists step.1.1, step.1.2. rewrite !Hf. done.
Qed.

(** C6. The actions a call returns are a tensor of one dimension, never
    of none; on a batch whose rows, containers and prior actions are as
    many, with a [_forward] that answers row by row, its length is the
    size of the batch. *)
Theorem forward_actions_flat self (xs : Tensor R) (mxs : list ref)
    (pas : option (list Z)) s ys mxs' actions s' :
  forward self xs mxs pas s = (Ok (ys, mxs', actions), s') →
  dim actions = 1 ∧
  (forward_contract →
   batch_size xs = length mxs →
   ((1 < _num_agents self)%Z → ∀ l, pas = Some l → length l = length mxs) →
   size actions = [length mxs] ∧ size actions = [batch_size xs]).
Proof.
  intros Hrun. split.
  - unfold forward in Hrun. unfold mbind at 1, Eff_bind at 1 in Hrun.
    match type of Hrun with
    | match ?m with _ => _ end = _ =>
        destruct m as [[[[ys0 actions0] dists0]|e] s0]; [|discriminate]
    end.
    unfold mbind, Eff_bind, pure in Hrun.
    destruct (split1 dists0); [|discriminate].
    destruct (iter (reshape_flat actions0)); [|discriminate].
    destruct (for_ _ _ _ _) as [[[]|e] s1]; [|discriminate].
    injection Hrun as _ _ <- _. reflexivity.
  - intros Hc Hlen Hpas.
    destruct (forward_ok_inv self xs mxs pas s ys mxs' actions s' Hc Hrun Hlen)
      as (_ & Hsz & _).
    rewrite (rows_reached_full self xs mxs pas s _ s' Hrun Hpas) in Hsz.
    split; [exact Hsz | rewrite Hlen; exact Hsz].
Qed.

(** C5, as the code has it.  A module with more than one agent raises
    the [ValueError] when [prior_actions] is [None], and checks nothing
    else about it: [zip] pairs rows, containers and prior actions up to
    the shortest.  A call with fewer prior actions than rows, if it
    returns, has gone through the first [length l] rows only: it returns
    that many actions, extends by one step the containers of those rows,
    and leaves the other containers as they were. *)
Theorem forward_prior_actions_unchecked self (xs : Tensor R) (mxs : list ref)
    (l : list Z) s ys mxs' actions s' :
  (1 < _num_agents self)%Z →
  forward_contract →
  batch_size xs = length mxs →
  NoDup mxs →
  forward self xs mxs (Some l) s = (Ok (ys, mxs', actions), s') →
  forward self xs mxs None s = (Raise (ValueError prior_actions_msg), s) ∧
  size actions = [length l `min` length mxs] ∧
  (∀ i mx key, mxs !! i = Some mx → i < length l →
     key ∈ ["actions"; "states"; "loss_funcs"; "reward_func"] →
     length (field_at s' mx key) = S (length (field_at s mx key))) ∧
  (∀ i mx, mxs !! i = Some mx → length l ≤ i → metas s' !! mx = metas s !! mx).
Proof.
  intros Hn Hc Hlen Hnd Hrun.
  assert (Hk : rows_reached self mxs (Some l) = length l `min` length mxs).
  { unfold rows_reached. rewrite (proj2 (Z.ltb_lt _ _) Hn). reflexivity. }
  split; [apply forward_none_run; done|]. split.
  { destruct (forward_ok_inv self xs mxs (Some l) s ys mxs' actions s'
                Hc Hrun Hlen) as (_ & Hsz & _). rewrite <- Hk. exact Hsz. }
  destruct (forward_ok_containers self xs mxs (Some l) s ys mxs' actions s'
              Hc Hrun Hlen Hnd) as [Hin Hout].
  rewrite Hk in Hin, Hout. split.
  - intros i mx key Hi Hik Hkey. destruct (Hin i mx Hi) as [step Hf].
    { apply lookup_lt_Some in Hi. lia. }
    rewrite Hf, length_app.
    assert (length (step_entries self step key) = 1) as ->; [|lia].
    repeat (apply elem_of_cons in Hkey as [->|Hkey]; [reflexivity|]).
    apply elem_of_nil in Hkey. done.
  - intros i mx Hi Hik. apply (Hout i mx Hi). lia.
Qed.

(** C10, as the code has it.  The default reward function is created
    once, by the class statement: modules built without
    [additional_reward_func] all hold that one object.  A call of
    [forward] leaves every reward function but the one of its module as
    it was, and registers into that one a pair for every row it goes
    through: two modules interfere exactly when they hold the same
    object. *)
Theorem forward_reward_func_frame `{FloatOps R} (self other : DecisionModule R)
    (xs : Tensor R) (mxs : list ref) (pas : option (list Z)) s :
  additional_reward_func other ≠ additional_reward_func self →
  rewards (forward self xs mxs pas s).2 !! additional_reward_func other
  = rewards s !! additional_reward_func other ∧
  (∀ default n1 f1 a1 e1 d1 b1 n2 f2 a2 e2 d2 b2,
     additional_reward_func (__init__ default n1 f1 a1 e1 d1 None b1) = default ∧
     additional_reward_func (__init__ default n2 f2 a2 e2 d2 None b2) = default) ∧
  (∀ ys mxs' actions s',
     forward self xs mxs pas s = (Ok (ys, mxs', actions), s') →
     forward_contract →
     batch_size xs = length mxs →
     length (reward_at s' (additional_reward_func self))
     = length (reward_at s (additional_reward_func self))
       + rows_reached self mxs pas).
Proof.
  intros Hne. split; [|split; [done|]].
  - destruct (forward_frame self xs mxs pas s) as (s0 & steps & _ & Hr & -> & _).
    rewrite record_loop_rewards_ne by done. rewrite Hr. reflexivity.
  - intros ys mxs' actions s' Hrun Hc Hlen.
    destruct (forward_ok_inv self xs mxs pas s ys mxs' actions s' Hc Hrun Hlen)
      as (_ & _ & steps & s0 & Hls & _ & _ & Hr & ->).
    rewrite record_loop_reward, length_app, length_fmap, Hls.
    unfold reward_at. rewrite Hr. reflexivity.
Qed.

(** C2, on the path of a single agent.  The generating distribution
    that [_forward] returns is split into rows and recorded as it is:
    every state the call adds to a container has as many dimensions as
    that distribution, two if it has two. *)
Theorem forward_single_agent_state_rank self (xs : Tensor R) (mxs : list ref)
    (pas : option (list Z)) s ys a d w :
  ¬ (1 < _num_agents self)%Z →
  _forward self xs mxs 0 (world s) = (Ok (ys, a, d), w) →
  1 ≤ dim d →
  is_ok (forward self xs mxs pas s).1 ∧
  ∀ mx, ∃ new,
    field_at (forward self xs mxs pas s).2 mx "states"
    = field_at s mx "states" ++ new ∧
    Forall (λ v, ∃ t, v = VFloat t ∧ dim t = dim d) new.
Proof.
  intros Hn E Hd.
  destruct (split1 d) as [ds|e] eqn:Es.
  2:{ unfold split1, dim in *. destruct (size d) as [|[|n] rest]; cbn in *; [lia|done|done]. }
  destruct (forward_single_run self xs mxs pas s ys a d w ds Hn E Es) as (as_ & _ & ->).
  split; [exact I|]. intros mx. cbn [snd]. rewrite record_loop_field.
  eexists. split; [reflexivity|].
  apply split1_length in Es as (_ & _ & Hds).
  apply Forall_flat_map. intros step Hstep.
  destruct (decide (mx = step.2)); [|constructor].
  rewrite step_entries_states. constructor; [|constructor].
  exists step.1.2. split; [done|].
  pose proof (zip3_mid_Forall _ as_ ds mxs Hds) as Hz.
  rewrite Forall_forall in Hz. apply (Hz step). done.
Qed.

End forward_properties.

(* ================================================================== *)
(** * Properties of [SARSA._loss] *)
(* ================================================================== *)

Section sarsa_properties.
Context {R : Type} `{FloatOps R}.
Implicit Types (self : DecisionModule R) (sample : Sample R).

(** The tensor handed over as the target is outside the computation
    graph and has the elements of the tensor it was made from. *)
Lemma squeeze_detach_target (target : Tensor R) :
  requires_grad (squeeze (detach target)) = false ∧
  storage (squeeze (detach target)) = storage target ∧
  size (squeeze (detach target)) = size (squeeze target).
Proof. done. Qed.

(** The steps of [_loss], the leading dimension written out. *)
Lemma sarsa_loss_steps self sample :
  SARSA._loss self sample
  = (target ← SARSA.target sample;
     q ← select1 (state sample) (action sample);
     l ← bellman_loss_func self (squeeze q) (squeeze (detach target));
     Ok (mkTensor (1 :: size l) (storage l) (requires_grad l))).
Proof.
  unfold SARSA._loss, mbind, Result_bind.
  destruct (SARSA.target sample) as [target|e]; [|reflexivity].
  destruct (select1 _ _) as [q|e]; [|reflexivity].
  destruct (bellman_loss_func _ _ _) as [l|e]; [|reflexivity].
  apply unsqueeze_first.
Qed.

(** The result has one more (leading) dimension than what the loss
    function returned. *)
Lemma sarsa_loss_size self sample out :
  SARSA._loss self sample = Ok out →
  ∃ x y l, bellman_loss_func self x y = Ok l ∧
           requires_grad y = false ∧ size out = 1 :: size l.
Proof.
  rewrite sarsa_loss_steps. unfold mbind, Result_bind.
  destruct (SARSA.target sample) as [target|e]; [|discriminate].
  destruct (select1 _ _) as [q|e]; [|discriminate].
  destruct (bellman_loss_func _ _ _) as [l|e] eqn:El; [|discriminate].
  intros [= <-]. eexists _, _, l. split; [exact El|]. done.
Qed.

(** The next state of a single row, at the next action, minus a scalar
    reward, element by element. *)
Lemma sarsa_target_row sample (na : Z) (ns : Tensor R) d1 rest (r : R) rg :
  next_action sample = Some na →
  next_state sample = Some ns →
  size ns = 1 :: d1 :: rest →
  wf ns →
  (0 ≤ na < Z.of_nat d1)%Z →
  reward sample = mkTensor [] [r] rg →
  SARSA.target sample
  = Ok (mkTensor (1 :: rest)
          ((λ v, fsub v r) <$> block (prod_list rest) (Z.to_nat na) (storage ns))
          rg).
Proof.
  intros Hna Hns Hsz Hwf Hk Hr. unfold SARSA.target. rewrite Hna, Hns, Hr.
  rewrite (select1_single_row (data ns) d1 rest na) by done.
  cbn [mbind Result_bind]. unfold sub. rewrite pointwise_scalar; [reflexivity|].
  unfold wf, numel in *. cbn [storage size data] in *. rewrite Hsz in Hwf.
  change (prod_list (1 :: d1 :: rest)) with (1 * (d1 * prod_list rest)) in Hwf.
  change (prod_list (1 :: rest)) with (1 * prod_list rest).
  rewrite length_block; nia.
Qed.

(** C1. On a step that has a next action, the target is the next state
    at the next action, minus the reward (element by element, for the
    row of a recorded state and a scalar reward); it is detached; the
    result is the module's [bellman_loss_func] on the state at the
    action taken and that target, with a leading dimension added: one
    dimension of length one when the loss function returns a scalar.
    The cumulated return plays no part. *)
Theorem sarsa_loss_nonterminal self sample (na : Z) :
  next_action sample = Some na →
  SARSA.target sample
  = (ns ← match next_state sample with
          | Some ns => Ok ns
          | None => Raise (AttributeError "'NoneType' object has no attribute 'data'")
          end;
     col ← select1 (data ns) na;
     sub col (reward sample)) ∧
  (∀ ns d1 rest r rg,
     next_state sample = Some ns → size ns = 1 :: d1 :: rest → wf ns →
     (0 ≤ na < Z.of_nat d1)%Z → reward sample = mkTensor [] [r] rg →
     SARSA.target sample
     = Ok (mkTensor (1 :: rest)
             ((λ v, fsub v r) <$> block (prod_list rest) (Z.to_nat na) (storage ns))
             rg)) ∧
  SARSA._loss self sample
  = (target ← SARSA.target sample;
     q ← select1 (state sample) (action sample);
     l ← bellman_loss_func self (squeeze q) (squeeze (detach target));
     Ok (mkTensor (1 :: size l) (storage l) (requires_grad l))) ∧
  (∀ target : Tensor R,
     requires_grad (squeeze (detach target)) = false ∧
     storage (squeeze (detach target)) = storage target) ∧
  (∀ out, SARSA._loss self sample = Ok out →
     (∀ x y l, bellman_loss_func self x y = Ok l → size l = []) →
     size out = [1]) ∧
  (∀ c, SARSA._loss self
          (mkSample (state sample) (action sample) (reward sample)
                    (next_state sample) (next_action sample) c)
        = SARSA._loss self sample).
Proof.
  intros Hna. repeat apply conj.
  - unfold SARSA.target. rewrite Hna.
    destruct (next_state sample) as [ns|]; reflexivity.
  - intros ns d1 rest r rg Hns Hsz Hwf Hk Hr.
    apply (sarsa_target_row sample na ns d1 rest r rg); done.
  - apply sarsa_loss_steps.
  - intros target. split; apply squeeze_detach_target.
  - intros out Hout Hscalar.
    apply sarsa_loss_size in Hout as (x & y & l & El & _ & ->).
    rewrite (Hscalar x y l El). reflexivity.
  - intros c. unfold SARSA._loss, SARSA.target.
    cbn [next_action next_state state action reward]. rewrite Hna. reflexivity.
Qed.

(** C7. On a last step the target is [cum_return] itself, detached;
    whatever [next_state] holds, the result is the same. *)
Theorem sarsa_loss_terminal self sample :
  next_action sample = None →
  SARSA.target sample = Ok (cum_return sample) ∧
  SARSA._loss self sample
  = (q ← select1 (state sample) (action sample);
     l ← bellman_loss_func self (squeeze q) (squeeze (detach (cum_return sample)));
     Ok (mkTensor (1 :: size l) (storage l) (requires_grad l))) ∧
  (storage (detach (cum_return sample)) = storage (cum_return sample) ∧
   size (detach (cum_return sample)) = size (cum_return sample)) ∧
  (∀ ns, SARSA._loss self
           (mkSample (state sample) (action sample) (reward sample)
                     ns None (cum_return sample))
         = SARSA._loss self sample).
Proof.
  intros Hna.
  assert (Ht : SARSA.target sample = Ok (cum_return sample))
    by (unfold SARSA.target; rewrite Hna; reflexivity).
  repeat apply conj; try done.
  - rewrite sarsa_loss_steps, Ht. reflexivity.
  - intros ns. unfold SARSA._loss, SARSA.target.
    cbn [next_action next_state state action reward cum_return].
    rewrite Hna. reflexivity.
Qed.

(** Of the module, [_loss] reads [bellman_loss_func] and nothing
    else. *)
Lemma sarsa_loss_reads_bellman self self' sample :
  bellman_loss_func self = bellman_loss_func self' →
  SARSA._loss self sample = SARSA._loss self' sample.
Proof. intros E. unfold SARSA._loss. rewrite E. reflexivity. Qed.

(** [F.smooth_l1_loss] returns a scalar. *)
Lemma smooth_l1_loss_scalar (x y l : Tensor R) :
  smooth_l1_loss x y = Ok l → size l = [].
Proof.
  unfold smooth_l1_loss, mbind, Result_bind.
  destruct (pointwise huber x y); [|discriminate]. intros [= <-]. reflexivity.
Qed.

End sarsa_properties.

(* ================================================================== *)
(** * The properties at concrete calls *)
(* ================================================================== *)

Section concrete.
Import Examples.

Lemma is_ok_run {A S} (r : Result A * S) : is_ok r.1 → ∃ a, r = (Ok a, r.2).
Proof. destruct r as [[a|e] s]; [intros _; exists a; reflexivity | intros []]. Qed.

(** The greedy subclass answers row by row. *)
Lemma greedy_contract : @forward_contract Q (list (list Q)) greedy_sarsa.
Proof.
  intros self x mxs pa w y a d w'. cbn [_forward greedy_sarsa SARSA.methods].
  unfold greedy_forward, batch_size, numel, dim.
  destruct (size x) as [|n rest]; [discriminate|].
  destruct (if (pa <? 0)%Z then None else w !! Z.to_nat pa) as [table|]; [|discriminate].
  intros [= <- <- <- <-]. cbn. lia.
Qed.

Lemma class_Decision_store0 : class_Decision store0 = (Ok default_rf, store1).
Proof. vm_compute. reflexivity. Qed.

Lemma forward_missing_prior_actions_witness :
  (1 < _num_agents multi)%Z ∧
  forward multi xs2 [0; 1] None store1
  = (Raise (ValueError prior_actions_msg), store1).
Proof.
  split; [reflexivity|].
  apply (forward_missing_prior_actions multi xs2 [0; 1] store1). reflexivity.
Defined.

Lemma normalize_dist_rank3_witness :
  dim (mkTensor [1; 2; 1] [1; 3]%Q true) = 3 ∧
  normalize_dist (mkTensor [1; 2; 1] [1; 3]%Q true)
  = Ok (mkTensor [1; 2; 1] [1; 3]%Q true).
Proof.
  split; [reflexivity|].
  apply (@normalize_dist_rank3 Q (list (list Q)) greedy_sarsa
           (mkTensor [1; 2; 1] [1; 3]%Q true)).
  reflexivity.
Defined.

Lemma forward_appends_one_step_witness :
  [0; 1] !! 1 = Some 1 ∧
  (aligned store1 1 →
   aligned (forward multi xs2 [0; 1] (Some [0; 1]%Z) store1).2 1) ∧
  length (field_at (forward multi xs2 [0; 1] (Some [0; 1]%Z) store1).2 1 "states")
  = S (length (field_at store1 1 "states")).
Proof.
  split; [reflexivity|].
  destruct (forward_appends_one_step multi xs2 [0; 1] (Some [0; 1]%Z) store1 1 1
              eq_refl) as [Hal Hone].
  split; [exact Hal|].
  assert (Hok : is_ok (forward multi xs2 [0; 1] (Some [0; 1]%Z) store1).1)
    by (vm_compute; exact I).
  destruct (is_ok_run _ Hok) as [[[ys mxs'] actions] E].
  destruct (Hone ys mxs' actions _ E greedy_contract eq_refl) as (a & d & _ & Hs & _).
  - apply (bool_decide_unpack _). vm_compute. exact I.
  - intros _ l [= <-]. reflexivity.
  - rewrite Hs, length_app. cbn [length]. lia.
Defined.

Lemma forward_actions_flat_witness :
  is_ok (forward single xs2 [0; 1] None store1).1 ∧
  ∀ ys mxs' actions s',
    forward single xs2 [0; 1] None store1 = (Ok (ys, mxs', actions), s') →
    size actions = [2].
Proof.
  split; [vm_compute; exact I|].
  intros ys mxs' actions s' E.
  refine (proj1 (proj2 (forward_actions_flat single xs2 [0; 1] None store1
                          ys mxs' actions s' E) greedy_contract _ _)).
  - reflexivity.
  - intros Hn. vm_compute in Hn. discriminate.
Defined.

(** Counterexample to C5 as stated: two agents, a batch of two rows,
    one prior action.  The call returns; it has recorded a step for the first row
    and none for the second. *)
Lemma forward_accepts_short_prior_actions :
  (1 < _num_agents multi)%Z ∧ batch_size xs2 = 2 ∧ length [1%Z] = 1 ∧
  is_ok (forward multi xs2 [0; 1] (Some [1%Z]) store1).1 ∧
  length (field_at (forward multi xs2 [0; 1] (Some [1%Z]) store1).2 0 "states") = 1 ∧
  length (field_at (forward multi xs2 [0; 1] (Some [1%Z]) store1).2 1 "states") = 0.
Proof. vm_compute. done. Qed.

Lemma forward_prior_actions_unchecked_witness :
  is_ok (forward multi xs2 [0; 1] (Some [1%Z]) store1).1 ∧
  ∀ ys mxs' actions s',
    forward multi xs2 [0; 1] (Some [1%Z]) store1 = (Ok (ys, mxs', actions), s') →
    size actions = [1] ∧ metas s' !! 1 = metas store1 !! 1.
Proof.
  split; [vm_compute; exact I|].
  intros ys mxs' actions s' E.
  assert (Hnd : NoDup [0; 1]) by (apply (bool_decide_unpack _); vm_compute; exact I).
  destruct (forward_prior_actions_unchecked multi xs2 [0; 1] [1%Z] store1
              ys mxs' actions s' eq_refl greedy_contract eq_refl Hnd E)
    as (_ & Hsz & _ & Hout).
  split; [exact Hsz|]. apply (Hout 1 1); [reflexivity | cbn; lia].
Defined.

(** Counterexample to C10 as stated: [single] and [multi] were both built
    without [additional_reward_func]; a call on [single] registers two
    pairs into the reward function that [multi] holds. *)
Lemma default_reward_func_is_shared :
  additional_reward_func single = additional_reward_func multi ∧
  reward_at store1 (additional_reward_func multi) = [] ∧
  length (reward_at (forward single xs2 [0; 1] None store1).2
                    (additional_reward_func multi)) = 2.
Proof. vm_compute. done. Qed.

Lemma forward_reward_func_frame_witness :
  additional_reward_func single ≠ additional_reward_func own_rf ∧
  rewards (forward own_rf xs2 [0; 1] None store2).2 !! additional_reward_func single
  = rewards store2 !! additional_reward_func single.
Proof.
  assert (Hne : additional_reward_func single ≠ additional_reward_func own_rf)
    by (vm_compute; discriminate).
  split; [exact Hne|].
  apply (forward_reward_func_frame own_rf single xs2 [0; 1] None store2 Hne).
Defined.

(** One agent, a generating distribution of two dimensions: the state
    recorded for the first row has two. *)
Lemma forward_single_records_rank2 :
  ¬ (1 < _num_agents single)%Z ∧
  field_at (forward single xs2 [0; 1] None store1).2 0 "states"
  = [VFloat (mkTensor [1; 2] [1; 3]%Q true)] ∧
  dim (mkTensor [1; 2] [1; 3]%Q true) = 2.
Proof.
  split; [intros Hn; vm_compute in Hn; discriminate|].
  split; [vm_compute; reflexivity | reflexivity].
Qed.

(** The same batch through two agents: the states recorded have three
    dimensions. *)
Lemma forward_multi_records_rank3 :
  field_at (forward multi xs2 [0; 1] (Some [0; 1]%Z) store1).2 0 "states"
  = [VFloat (mkTensor [1; 2; 1] [1; 3]%Q true)] ∧
  field_at (forward multi xs2 [0; 1] (Some [0; 1]%Z) store1).2 1 "states"
  = [VFloat (mkTensor [1; 2; 1] [2; 0]%Q true)].
Proof. split; vm_compute; reflexivity. Qed.

Lemma forward_single_agent_state_rank_witness :
  is_ok (forward single xs2 [0; 1] None store1).1 ∧
  ∀ mx, ∃ new,
    field_at (forward single xs2 [0; 1] None store1).2 mx "states"
    = field_at store1 mx "states" ++ new ∧
    Forall (λ v, ∃ t, v = VFloat t ∧ dim t = 2) new.
Proof.
  assert (Hn : ¬ (1 < _num_agents single)%Z)
    by (intros Hn; vm_compute in Hn; discriminate).
  assert (E : _forward single xs2 [0; 1] 0 (world store1)
              = (Ok (xs2, mkTensor [2] [1; 1]%Z false,
                     mkTensor [2; 2] [1; 3; 1; 3]%Q true), tables))
    by (vm_compute; reflexivity).
  apply (forward_single_agent_state_rank single xs2 [0; 1] None store1
           xs2 (mkTensor [2] [1; 1]%Z false)
           (mkTensor [2; 2] [1; 3; 1; 3]%Q true) tables Hn E).
  cbn. lia.
Defined.

(** C9, at a sample: two modules that differ in [bellman_loss_func]
    only give the same sample two different losses. *)
Lemma sarsa_loss_depends_on_module :
  SARSA._loss single step_sample = Ok (mkTensor [1] [5 # 2]%Q true) ∧
  SARSA._loss single_mse step_sample = Ok (mkTensor [1] [9]%Q true) ∧
  SARSA._loss single step_sample ≠ SARSA._loss single_mse step_sample.
Proof.
  split; [vm_compute; reflexivity|]. split; [vm_compute; reflexivity|].
  intros E. vm_compute in E. discriminate.
Qed.

Lemma sarsa_loss_nonterminal_witness :
  next_action step_sample = Some 1%Z ∧
  SARSA._loss single step_sample = Ok (mkTensor [1] [5 # 2]%Q true) ∧
  ∀ out, SARSA._loss single step_sample = Ok out → size out = [1].
Proof.
  split; [reflexivity|]. split; [vm_compute; reflexivity|].
  intros out Hout.
  destruct (sarsa_loss_nonterminal single step_sample 1 eq_refl)
    as (_ & _ & _ & _ & Hsize & _).
  apply Hsize; [exact Hout|]. intros x y l. apply smooth_l1_loss_scalar.
Defined.

Lemma sarsa_loss_terminal_witness :
  next_action last_sample = None ∧
  SARSA._loss single
    (mkSample (state last_sample) (action last_sample) (reward last_sample)
              (Some (mkTensor [1; 2; 1] [2; 7]%Q true)) None
              (cum_return last_sample))
  = SARSA._loss single last_sample.
Proof.
  split; [reflexivity|].
  apply (sarsa_loss_terminal single last_sample eq_refl).
Defined.

End concrete.
